(** * A ReAct agent loop (agentic_system.py), embedded and verified

    The development follows [ReActAgent.run]: the text primitives of
    Python that the loop relies on ([in], [str.split], [str.strip],
    [re.search] with the action pattern), the dictionary of tools, and
    the loop itself, with the language model and the tools as state
    transformers over an arbitrary world. *)

From Stdlib Require Import String Ascii.
From Stdlib Require Import List NArith ZArith Bool Lia.
Import ListNotations.

(** ** Python strings

    A [str] is a sequence of Unicode code points. *)

Definition char := N.
Definition str := list char.

(** An ASCII literal of the source, as a [str]. *)
Definition lit (s : string) : str :=
  map N_of_ascii (list_ascii_of_string s).
Arguments lit s%_string.

Definition LF : str := [10%N].
Definition DQUOTE : char := 34%N.

(** [str.isspace] on one code point: the characters [str.strip()]
    removes. *)
Definition isspace (c : char) : bool :=
  ((9 <=? c) && (c <=? 13) || (28 <=? c) && (c <=? 32) ||
   (c =? 133) || (c =? 160) || (c =? 5760) ||
   (8192 <=? c) && (c <=? 8202) ||
   (c =? 8232) || (c =? 8233) || (c =? 8239) || (c =? 8287) ||
   (c =? 12288))%N.

(** [s.startswith(p)], returning what follows the prefix. *)
Fixpoint strip_prefix (p s : str) : option str :=
  match p, s with
  | [], _ => Some s
  | _ :: _, [] => None
  | a :: p', b :: s' => if N.eqb a b then strip_prefix p' s' else None
  end.

(** The first occurrence of [sep] in [s], scanning from the left: the
    text before it and the text after it ([str.partition]). *)
Fixpoint cut (sep s : str) : option (str * str) :=
  match strip_prefix sep s with
  | Some rest => Some ([], rest)
  | None =>
      match s with
      | [] => None
      | c :: s' =>
          match cut sep s' with
          | Some (before, after) => Some (c :: before, after)
          | None => None
          end
      end
  end.

(** [sep in s]. *)
Definition contains (sep s : str) : bool :=
  match cut sep s with Some _ => true | None => false end.

(** [s.split(sep)] for a non-empty [sep]: cut at the first occurrence,
    go on in the text after it.  The fuel bounds the number of cuts. *)
Fixpoint split_fuel (fuel : nat) (sep s : str) : list str :=
  match fuel with
  | O => [s]
  | S fuel' =>
      match cut sep s with
      | Some (before, after) => before :: split_fuel fuel' sep after
      | None => [s]
      end
  end.

Definition split (sep s : str) : list str :=
  split_fuel (length s) sep s.

(** [l[-1]] on a list of strings. *)
Definition last_piece (l : list str) : str := last l [].

(** [str.lstrip], [str.rstrip] and [str.strip], by the set of characters
    to remove. *)
Fixpoint lstrip_by (f : char -> bool) (s : str) : str :=
  match s with
  | [] => []
  | c :: s' => if f c then lstrip_by f s' else s
  end.

Definition rstrip_by (f : char -> bool) (s : str) : str :=
  rev (lstrip_by f (rev s)).

Definition strip_by (f : char -> bool) (s : str) : str :=
  rstrip_by f (lstrip_by f s).

(** [s.strip()] *)
Definition strip (s : str) : str := strip_by isspace s.

(** [s.strip(chars)] *)
Definition strip_chars (chars s : str) : str :=
  strip_by (fun c => existsb (N.eqb c) chars) s.

(** [sep.join(l)] *)
Fixpoint join (sep : str) (l : list str) : str :=
  match l with
  | [] => []
  | [x] => x
  | x :: l' => x ++ sep ++ join sep l'
  end.

(** ** The action pattern

    The pattern of [re.search] in the run is the literal [Action: ], a
    lazy group of any characters, a line break, the literal
    [Action Input: ] and a greedy group of any characters, with the
    flag [re.DOTALL].
    The search tries the start positions from the left.  At a start
    position the literal [Action: ] must match; the lazy group then
    grows one character at a time (any character, [re.DOTALL]) until
    the literal line break and [Action Input: ] match, and the greedy
    group takes everything to the end of the text.  The result is the
    pair of groups. *)

Definition ACTION : str := lit "Action: ".
Definition ACTION_INPUT : str := LF ++ lit "Action Input: ".
Definition FINAL_ANSWER : str := lit "Final Answer:".

Definition match_here (s : str) : option (str * str) :=
  match strip_prefix ACTION s with
  | Some rest => cut ACTION_INPUT rest
  | None => None
  end.

Fixpoint re_search (s : str) : option (str * str) :=
  match match_here s with
  | Some groups => Some groups
  | None =>
      match s with
      | [] => None
      | _ :: s' => re_search s'
      end
  end.

(** ** Classification of a generated block (run, steps 2 and 3) *)

Inductive ParsedStep :=
| FinalAnswer (text : str)
| Action (action_name action_input : str)
| Unparseable.

Definition parse (output : str) : ParsedStep :=
  if contains FINAL_ANSWER output then
    FinalAnswer (strip (last_piece (split FINAL_ANSWER output)))
  else
    match re_search output with
    | None => Unparseable
    | Some (group1, group2) =>
        Action (strip group1) (strip_chars [DQUOTE] (strip group2))
    end.

(** A marker whose first character occurs nowhere else in it: two
    occurrences of such a marker cannot overlap. *)
Definition head_unique (sep : str) : bool :=
  match sep with
  | [] => false
  | c :: t => negb (existsb (N.eqb c) t)
  end.

(** The characters removed by [strip] when its argument is the double
    quote. *)
Definition is_quote (c : char) : bool := existsb (N.eqb c) [DQUOTE].


(** ** Dictionaries

    A Python [dict] keeps its keys in insertion order; assigning to a
    key that is present replaces the value and keeps the position. *)

Definition dict (V : Type) := list (str * V).

Definition str_eqb (a b : str) : bool :=
  if list_eq_dec N.eq_dec a b then true else false.

Fixpoint dict_set {V} (d : dict V) (k : str) (v : V) : dict V :=
  match d with
  | [] => [(k, v)]
  | (k', v') :: d' =>
      if str_eqb k' k then (k', v) :: d' else (k', v') :: dict_set d' k v
  end.

Fixpoint dict_get {V} (d : dict V) (k : str) : option V :=
  match d with
  | [] => None
  | (k', v') :: d' => if str_eqb k' k then Some v' else dict_get d' k
  end.

Definition dict_keys {V} (d : dict V) : list str := map fst d.

(** ** The interfaces, the agent and the loop *)

Section ReAct.

(** The state of everything outside the loop that the language model
    and the tools may read and change. *)
Context {World : Type}.

(** What a call of [Tool.run] does: it returns a string, or raises an
    [Exception] [e], kept as [str(e)]. *)
Inductive ToolOutcome :=
| Returned (result : str)
| Raised (message : str).

Record Tool := {
  name : str;
  description : str;
  run_tool : str -> World -> ToolOutcome * World
}.

Record LLMProvider := {
  generate : str -> list str -> World -> str * World
}.

Record ReActAgent := {
  llm : LLMProvider;
  tools : dict Tool;
  tool_descriptions : str
}.

(** [ReActAgent.__init__] *)
Definition init (l : LLMProvider) (ts : list Tool) : ReActAgent :=
  {| llm := l;
     tools := fold_left (fun d t => dict_set d (name t) t) ts [];
     tool_descriptions :=
       join LF (map (fun t => name t ++ lit ": " ++ description t) ts)
  |}.

Definition system_prompt (self : ReActAgent) (query : str) : str :=
  lit "
Answer the following questions as best you can. You have access to the following tools:

" ++ tool_descriptions self ++ lit "

Use the following format:

Question: the input question you must answer
Thought: you should always think about what to do
Action: the action to take, should be one of [" ++
  join (lit ", ") (dict_keys (tools self)) ++ lit "]
Action Input: the input to the action
Observation: the result of the action
... (this Thought/Action/Action Input/Observation can repeat N times)
Thought: I now know the final answer
Final Answer: the final answer to the original input question

Begin!

Question: " ++ query ++ lit "
".

(** What the run does to the outside, in order. *)
Inductive Event :=
| Printed (text : str)
| Generated (prompt : str) (stop : list str) (output : str)
| Executed (tool : str) (input : str) (outcome : ToolOutcome).

Record State := {
  history : str;
  world : World;
  log : list Event
}.

Definition STOP : list str := [lit "Observation:"].
Definition SENTINEL : str :=
  lit "Agent stopped (max steps reached or error).".

(** Step 4 of the loop body: the observation for a parsed action. *)
Definition dispatch (self : ReActAgent) (action_name action_input : str)
    (w : World) : str * World * list Event :=
  match dict_get (tools self) action_name with
  | Some tool =>
      let '(outcome, w') := run_tool tool action_input w in
      (match outcome with
       | Returned result => result
       | Raised message => lit "Error: " ++ message
       end,
       w',
       [Printed (lit " * Executing Tool: " ++ action_name ++
                 lit " with '" ++ action_input ++ lit "'");
        Executed action_name action_input outcome])
  | None =>
      (lit "Error: Tool '" ++ action_name ++ lit "' not found.", w, [])
  end.

(** How one pass through the loop body ends. *)
Inductive Flow :=
| Continue
| Break
| Return (result : str).

(** The body of [for step in range(max_steps)]. *)
Definition step (self : ReActAgent) (st : State) : Flow * State :=
  let '(output, w1) := generate (llm self) (history st) STOP (world st) in
  let log1 := log st ++ [Generated (history st) STOP output; Printed output] in
  let history1 := history st ++ output ++ LF in
  match parse output with
  | FinalAnswer answer =>
      (Return answer, {| history := history1; world := w1; log := log1 |})
  | Unparseable =>
      (Break,
       {| history := history1; world := w1;
          log := log1 ++
                 [Printed (lit "Error: Could not parse action. Ending.")] |})
  | Action action_name action_input =>
      let '(observation, w2, events) :=
        dispatch self action_name action_input w1 in
      (Continue,
       {| history := history1 ++ lit "Observation: " ++ observation ++ LF;
          world := w2;
          log := log1 ++ events ++
                 [Printed (lit "Observation: " ++ observation)] |})
  end.

(** How the [for] loop is left. *)
Inductive Exit :=
| Returned_from_loop (result : str)
| Broke
| Exhausted.

Fixpoint loop (self : ReActAgent) (steps : nat) (st : State) : Exit * State :=
  match steps with
  | O => (Exhausted, st)
  | S steps' =>
      match step self st with
      | (Return result, st') => (Returned_from_loop result, st')
      | (Break, st') => (Broke, st')
      | (Continue, st') => loop self steps' st'
      end
  end.

Definition start (self : ReActAgent) (query : str) (w : World) : State :=
  {| history := system_prompt self query;
     world := w;
     log := [Printed (lit "--- Agent started for: '" ++ query ++
                      lit "' ---")] |}.

(** The statement after the loop is reached when the loop breaks and
    when it runs out of steps; a [return] inside the loop skips it. *)
Definition finish (r : Exit * State) : str * State :=
  match r with
  | (Returned_from_loop result, st) => (result, st)
  | (Broke, st) => (SENTINEL, st)
  | (Exhausted, st) => (SENTINEL, st)
  end.

(** [ReActAgent.run]; [range(max_steps)] is empty for a budget that is
    not positive. *)
Definition run (self : ReActAgent) (query : str) (max_steps : Z)
    (w : World) : str * State :=
  finish (loop self (Z.to_nat max_steps) (start self query w)).

(** The number of calls of [generate] in a log. *)
Definition is_generated (e : Event) : bool :=
  match e with Generated _ _ _ => true | _ => false end.

Definition is_executed (e : Event) : bool :=
  match e with Executed _ _ _ => true | _ => false end.

Definition generation_calls (l : list Event) : nat :=
  length (filter is_generated l).

Definition tool_calls (l : list Event) : nat :=
  length (filter is_executed l).

(** ** States reached by a pass through the loop body *)

Definition after_block (st : State) (output : str) (w1 : World)
    (more : list Event) : State :=
  {| history := history st ++ output ++ LF;
     world := w1;
     log := (log st ++ [Generated (history st) STOP output; Printed output])
            ++ more |}.

Definition after_observation (st : State) (output : str)
    (events : list Event) (observation : str) (w2 : World) : State :=
  {| history := (history st ++ output ++ LF) ++
                lit "Observation: " ++ observation ++ LF;
     world := w2;
     log := (log st ++ [Generated (history st) STOP output; Printed output])
            ++ events ++ [Printed (lit "Observation: " ++ observation)] |}.

Definition executing (nm inp : str) (outcome : ToolOutcome) : list Event :=
  [Printed (lit " * Executing Tool: " ++ nm ++ lit " with '" ++ inp ++
            lit "'");
   Executed nm inp outcome].

(** ** Runs in two worlds *)

(** Two states that differ at most in their worlds, and those only up
    to [R]. *)
Definition alike (R : World -> World -> Prop) (st st' : State) : Prop :=
  history st = history st' /\ log st = log st' /\ R (world st) (world st').

(** The language model cannot tell apart worlds related by [R]. *)
Definition llm_respects (R : World -> World -> Prop) (self : ReActAgent)
    : Prop :=
  forall prompt stop v v', R v v' ->
    fst (generate (llm self) prompt stop v) =
    fst (generate (llm self) prompt stop v') /\
    R (snd (generate (llm self) prompt stop v))
      (snd (generate (llm self) prompt stop v')).

(** Nor can the registered tools. *)
Definition tools_respect (R : World -> World -> Prop) (self : ReActAgent)
    : Prop :=
  forall nm tool input v v',
    dict_get (tools self) nm = Some tool -> R v v' ->
    fst (run_tool tool input v) = fst (run_tool tool input v') /\
    R (snd (run_tool tool input v)) (snd (run_tool tool input v')).

End ReAct.

Arguments Tool : clear implicits.
Arguments LLMProvider : clear implicits.
Arguments ReActAgent : clear implicits.
Arguments State : clear implicits.
Arguments Event : clear implicits.

(** ** Backends and tools of the scenarios *)

Definition DEGREE : char := 176%N.

(** [MockLLM.generate] *)
Definition MockLLM_generate (prompt : str) : str :=
  if contains (lit "Weather") prompt && contains (lit "Delhi") prompt &&
     negb (contains (lit "Action:") prompt)
  then
    lit "Thought: The user is asking about the weather in Delhi. I should use the Weather tool." ++
    LF ++ lit "Action: Weather" ++
    LF ++ lit "Action Input: " ++ [DQUOTE] ++ lit "Delhi" ++ [DQUOTE]
  else if
    contains (lit "Observation: 32" ++ [DEGREE] ++ lit "C, Sunny") prompt &&
    negb (contains (lit "Final Answer") prompt)
  then
    lit "Thought: I have the weather. Now I can answer." ++
    LF ++ lit "Final Answer: It is 32" ++ [DEGREE] ++
    lit "C and Sunny in Delhi."
  else if
    contains (lit "2 + 2") prompt && negb (contains (lit "Action:") prompt)
  then
    lit "Thought: I need to calculate 2 + 2." ++
    LF ++ lit "Action: Calculator" ++
    LF ++ lit "Action Input: " ++ [DQUOTE] ++ lit "2 + 2" ++ [DQUOTE]
  else if
    contains (lit "2 + 2") prompt && contains (lit "Observation: 4") prompt
  then
    lit "Thought: I have the result." ++
    LF ++ lit "Final Answer: The answer is 4."
  else
    lit "Thought: I am confused. " ++
    LF ++ lit "Final Answer: I don't know how to handle this.".

Definition MockLLM {World : Type} : LLMProvider World :=
  {| generate := fun prompt _ w => (MockLLM_generate prompt, w) |}.

(** A scripted backend: its [i]-th call returns the [i]-th block of the
    script, whatever the prompt; the world is the number of calls made
    so far. *)
Definition scripted (script : list str) : LLMProvider nat :=
  {| generate := fun _ _ i => (nth i script [], S i) |}.

(** A tool that returns the same result for every input, and one that
    raises for every input; both count their calls when the world is a
    number. *)
Definition constant_tool {World : Type} (nm result : str) : Tool World :=
  {| name := nm;
     description := lit "Returns a fixed result.";
     run_tool := fun _ w => (Returned result, w) |}.

Definition raising_tool {World : Type} (nm message : str) : Tool World :=
  {| name := nm;
     description := lit "Always fails.";
     run_tool := fun _ w => (Raised message, w) |}.

Definition counting_tool (nm result : str) : Tool nat :=
  {| name := nm;
     description := lit "Returns a fixed result and counts its calls.";
     run_tool := fun _ i => (Returned result, S i) |}.

(** The blocks of the scenarios. *)
Definition action_block (nm inp : str) : str :=
  lit "Action: " ++ nm ++ LF ++ lit "Action Input: " ++
  [DQUOTE] ++ inp ++ [DQUOTE].

Definition final_block (answer : str) : str :=
  lit "Final Answer: " ++ answer.

(** The agent of the end-to-end scenario: a calculator that answers 4,
    a weather tool, and a backend that asks the calculator and then
    answers. *)
Definition scenario_agent : ReActAgent nat :=
  init
    (scripted [action_block (lit "Calculator") (lit "2 + 2");
               final_block (lit "The answer is 4.")])
    [constant_tool (lit "Calculator") (lit "4");
     constant_tool (lit "Weather") (lit "Unknown city")].

(** An agent whose backend asks for a tool that is not registered, then
    for one that fails, then says something outside the protocol. *)
Definition failing_agent : ReActAgent nat :=
  init
    (scripted [action_block (lit "Search") (lit "rocq");
               action_block (lit "Calculator") (lit "1/0");
               lit "I give up."])
    [raising_tool (lit "Calculator") (lit "division by zero")].

(** The agent of the demonstration at the end of the source, with
    tools that count their calls. *)
Definition mock_agent : ReActAgent nat :=
  init MockLLM
    [counting_tool (lit "Calculator") (lit "4");
     counting_tool (lit "Weather") (lit "Unknown city")].

(** A backend without hidden influence on its output: it asks the
    calculator until the history shows the observation 4, then answers;
    it counts its calls in the world. *)
Definition prompt_driven : LLMProvider nat :=
  {| generate := fun prompt _ i =>
       (if contains (lit "Observation: 4" ++ LF) prompt
        then final_block (lit "The answer is 4.")
        else action_block (lit "Calculator") (lit "2 + 2"),
        S i) |}.

Definition prompt_driven_agent : ReActAgent nat :=
  init prompt_driven [counting_tool (lit "Calculator") (lit "4")].

(** A backend that asks for the same tool at every call. *)
Definition repeating (nm inp : str) : LLMProvider nat :=
  {| generate := fun _ _ i => (action_block nm inp, S i) |}.

Definition repeating_agent : ReActAgent nat :=
  init (repeating (lit "Calculator") (lit "2 + 2"))
    [counting_tool (lit "Calculator") (lit "4")].

(** One step of the dictionary comprehension of [__init__], and the
    test for a tool of a given name. *)
Definition register {World : Type} (d : dict (Tool World)) (t : Tool World)
    : dict (Tool World) :=
  dict_set d (name t) t.

Definition named {World : Type} (nm : str) (t : Tool World) : bool :=
  str_eqb (name t) nm.

(** The two blocks the mock backend returns when its prompt has the
    instructions of the agent. *)
Definition ANSWER_4 : str :=
  lit "Thought: I have the result." ++ LF ++
  lit "Final Answer: The answer is 4.".

Definition CONFUSED : str :=
  lit "Thought: I am confused. " ++ LF ++
  lit "Final Answer: I don't know how to handle this.".

(** The calls of the language model recorded so far were made with the
    stop marker of the run, on a prompt that starts with [sp], and
    their outputs stand in the history right after their prompts. *)
Definition prompts_recorded {World : Type} (sp : str) (st : State World)
    : Prop :=
  (exists e, history st = sp ++ e) /\
  forall p s o, In (Generated p s o) (log st) ->
    s = STOP /\ (exists e, p = sp ++ e) /\
    (exists e, history st = p ++ o ++ LF ++ e).

(** The tool calls recorded so far: each stands in the log right after
    a call of the language model and the print of its block, the block
    parses to the name and the input of the tool call, the name is
    registered, and the outcome is what the registered tool gives on
    that input in the world the language model left. *)
Definition executions_registered {World : Type} (self : ReActAgent World)
    (l : list Event) : Prop :=
  forall nm inp oc, In (Executed nm inp oc) l ->
    exists l1 l2 p o tool v0 v v',
      l = l1 ++ [Generated p STOP o; Printed o] ++
          executing nm inp oc ++ l2 /\
      generate (llm self) p STOP v0 = (o, v) /\
      parse o = Action nm inp /\
      dict_get (tools self) nm = Some tool /\
      run_tool tool inp v = (oc, v').

(** * Properties *)

(** ** Prefixes and first occurrences *)

Lemma strip_prefix_app (p s : str) : strip_prefix p (p ++ s) = Some s.
Proof.
  induction p as [|a p IH]; simpl; [reflexivity|].
  now rewrite N.eqb_refl.
Qed.

Lemma strip_prefix_Some (p s r : str) :
  strip_prefix p s = Some r -> s = p ++ r.
Proof.
  revert s; induction p as [|a p IH]; intros s H; simpl in *.
  - now inversion H.
  - destruct s as [|b s]; [discriminate|].
    destruct (N.eqb_spec a b) as [->|]; [|discriminate].
    now rewrite (IH _ H).
Qed.

Lemma cut_sound (sep s before after : str) :
  cut sep s = Some (before, after) -> s = before ++ sep ++ after.
Proof.
  revert before; induction s as [|c s IH]; intros before; simpl.
  - destruct (strip_prefix sep []) eqn:E; [|discriminate].
    intros H; inversion H; subst. now apply strip_prefix_Some in E.
  - destruct (strip_prefix sep (c :: s)) eqn:E.
    + intros H; inversion H; subst. now apply strip_prefix_Some in E.
    + destruct (cut sep s) as [[b a]|]; [|discriminate].
      intros H; inversion H; subst. now rewrite (IH b eq_refl).
Qed.

Lemma cut_here (sep s : str) : cut sep (sep ++ s) = Some ([], s).
Proof.
  destruct (sep ++ s) eqn:E; simpl; rewrite <- E;
    now rewrite strip_prefix_app.
Qed.

Lemma cut_complete (sep b a : str) :
  exists b' a', cut sep (b ++ sep ++ a) = Some (b', a') /\ length b' <= length b.
Proof.
  induction b as [|c b (b' & a' & IH & Hle)].
  - exists [], a. simpl app. split; [apply cut_here|reflexivity].
  - simpl app. simpl cut.
    destruct (strip_prefix sep (c :: b ++ sep ++ a)) eqn:E.
    + eexists _, _. split; [reflexivity|]. simpl. lia.
    + rewrite IH. eexists _, _. split; [reflexivity|]. simpl. lia.
Qed.

Lemma contains_true_iff (sep s : str) :
  contains sep s = true <-> exists b a, s = b ++ sep ++ a.
Proof.
  unfold contains. split.
  - destruct (cut sep s) as [[b a]|] eqn:E; [|discriminate].
    intros _. exists b, a. now apply cut_sound.
  - intros (b & a & ->).
    destruct (cut_complete sep b a) as (b' & a' & -> & _). reflexivity.
Qed.

Lemma contains_false_iff (sep s : str) :
  contains sep s = false <-> forall b a, s <> b ++ sep ++ a.
Proof.
  split.
  - intros H b a E.
    assert (contains sep s = true) by (apply contains_true_iff; eauto).
    congruence.
  - intros H. destruct (contains sep s) eqn:E; [|reflexivity].
    apply contains_true_iff in E. destruct E as (b & a & E).
    now apply H in E.
Qed.

(** ** Markers whose first character occurs nowhere else in them *)

Lemma head_unique_FINAL_ANSWER : head_unique FINAL_ANSWER = true.
Proof. reflexivity. Qed.

Lemma head_unique_ACTION : head_unique ACTION = true.
Proof. reflexivity. Qed.

Lemma head_unique_ACTION_INPUT : head_unique ACTION_INPUT = true.
Proof. reflexivity. Qed.

Lemma tail_inside (c : char) (t x w r : str) :
  existsb (N.eqb c) t = false ->
  x ++ c :: w = t ++ r -> exists x', x = t ++ x'.
Proof.
  revert x; induction t as [|d t IH]; intros x Hc E.
  - now exists x.
  - simpl in Hc. apply orb_false_iff in Hc. destruct Hc as [Hd Ht].
    destruct x as [|e x]; simpl in E; inversion E; subst.
    + now rewrite N.eqb_refl in Hd.
    + destruct (IH x Ht H1) as [x' ->]. now exists x'.
Qed.

Lemma no_overlap (sep x v r : str) :
  head_unique sep = true ->
  x ++ sep ++ v = sep ++ r ->
  x = [] \/ exists x', x = sep ++ x'.
Proof.
  destruct sep as [|c t]; [discriminate|]. simpl. intros Hc E.
  apply negb_true_iff in Hc.
  destruct x as [|e x]; [now left|right].
  simpl in E. inversion E; subst.
  destruct (tail_inside _ _ _ _ _ Hc H1) as [x' ->]. now exists x'.
Qed.

Lemma contains_cons_false (sep : str) (c : char) (s : str) :
  contains sep (c :: s) = false ->
  strip_prefix sep (c :: s) = None /\ contains sep s = false.
Proof.
  unfold contains. simpl cut.
  destruct (strip_prefix sep (c :: s)); [discriminate|].
  destruct (cut sep s) as [[b a]|]; [discriminate|]. now split.
Qed.

Lemma cut_app_first (sep x v : str) :
  head_unique sep = true ->
  contains sep x = false ->
  cut sep (x ++ sep ++ v) = Some (x, v).
Proof.
  intros Hu. induction x as [|c x IH]; intros Hx.
  - exact (cut_here sep v).
  - destruct (contains_cons_false _ _ _ Hx) as [_ Hx'].
    simpl app. simpl cut.
    destruct (strip_prefix sep (c :: x ++ sep ++ v)) eqn:E.
    + apply strip_prefix_Some in E.
      destruct (no_overlap sep (c :: x) v s Hu E) as [H|[x' H]];
        [discriminate|].
      assert (contains sep (c :: x) = true)
        by (apply contains_true_iff; exists [], x'; now rewrite H).
      congruence.
    + now rewrite (IH Hx').
Qed.

(** If a marker does not occur in [b], its occurrence in front of [b]
    is the last one of the text. *)
Lemma last_occurrence (sep a b a' b' : str) :
  head_unique sep = true ->
  contains sep b = false ->
  a ++ sep ++ b = a' ++ sep ++ b' ->
  length a' <= length a.
Proof.
  intros Hu Hb E. apply app_eq_app in E. destruct E as [l [[-> E]|[-> E]]].
  - rewrite length_app. lia.
  - symmetry in E. destruct (no_overlap sep l b' b Hu E) as [->|[x ->]].
    + rewrite app_nil_r. lia.
    + rewrite <- app_assoc in E. apply app_inv_head in E. subst b.
      assert (contains sep (x ++ sep ++ b') = true)
        by (apply contains_true_iff; eauto).
      congruence.
Qed.

(** ** [split]: the fuel suffices, and the last piece *)

Lemma split_fuel_S (n : nat) (sep s : str) :
  split_fuel (S n) sep s =
  match cut sep s with
  | Some (before, after) => before :: split_fuel n sep after
  | None => [s]
  end.
Proof. reflexivity. Qed.

Lemma cut_nil (sep : str) : sep <> [] -> cut sep [] = None.
Proof. destruct sep; [contradiction|reflexivity]. Qed.

Lemma cut_shorter (sep s b a : str) :
  sep <> [] -> cut sep s = Some (b, a) -> length a < length s.
Proof.
  intros Hs H. apply cut_sound in H. subst s. rewrite !length_app.
  destruct sep; [contradiction|]. simpl. lia.
Qed.

Lemma split_fuel_enough (sep : str) :
  sep <> [] ->
  forall n m s, length s <= n -> length s <= m ->
  split_fuel n sep s = split_fuel m sep s.
Proof.
  intros Hs. induction n as [|n IH]; intros m s Hn Hm.
  - destruct s; [|simpl in Hn; lia].
    destruct m; [reflexivity|]. now rewrite split_fuel_S, cut_nil.
  - destruct m as [|m].
    + destruct s; [|simpl in Hm; lia]. now rewrite split_fuel_S, cut_nil.
    + rewrite !split_fuel_S. destruct (cut sep s) as [[b a]|] eqn:E;
        [|reflexivity].
      pose proof (cut_shorter _ _ _ _ Hs E). f_equal. apply IH; lia.
Qed.

(** [split] obeys the equation of the cutting loop: no result depends
    on the fuel. *)
Lemma split_unfold (sep s : str) :
  sep <> [] ->
  split sep s =
  match cut sep s with
  | Some (before, after) => before :: split sep after
  | None => [s]
  end.
Proof.
  intros Hs. unfold split. destruct (length s) as [|n] eqn:L.
  - destruct s; [|discriminate]. now rewrite cut_nil.
  - rewrite split_fuel_S. destruct (cut sep s) as [[b a]|] eqn:E;
      [|reflexivity].
    pose proof (cut_shorter _ _ _ _ Hs E). f_equal.
    apply split_fuel_enough; [assumption|lia|lia].
Qed.

Lemma split_fuel_nonempty (n : nat) (sep s : str) : split_fuel n sep s <> [].
Proof.
  destruct n; [discriminate|]. rewrite split_fuel_S.
  destruct (cut sep s) as [[b a]|]; discriminate.
Qed.

Lemma split_fuel_absent (n : nat) (sep s : str) :
  contains sep s = false -> split_fuel n sep s = [s].
Proof.
  unfold contains. intros H. destruct n; [reflexivity|].
  rewrite split_fuel_S. now destruct (cut sep s) as [[b a]|].
Qed.

Lemma last_piece_cons (x : str) (l : list str) :
  l <> [] -> last_piece (x :: l) = last_piece l.
Proof. destruct l; [contradiction|reflexivity]. Qed.

Lemma split_fuel_last (sep b : str) :
  head_unique sep = true ->
  contains sep b = false ->
  forall n a, length (a ++ sep ++ b) <= n ->
  last_piece (split_fuel n sep (a ++ sep ++ b)) = b.
Proof.
  intros Hu Hb.
  assert (Hend : forall n b0, last_piece (b0 :: split_fuel n sep b) = b).
  { intros n b0. now rewrite (split_fuel_absent n _ _ Hb). }
  induction n as [|n IH]; intros a Hn.
  - rewrite !length_app in Hn. destruct sep; [discriminate|].
    simpl in Hn. lia.
  - rewrite split_fuel_S.
    destruct (cut_complete sep a b) as (b0 & a0 & E & Hle). rewrite E.
    pose proof (cut_sound _ _ _ _ E) as D.
    apply app_eq_app in D. destruct D as [l [[-> D]|[-> D]]].
    + symmetry in D.
      destruct (no_overlap sep l b a0 Hu D) as [->|[x ->]].
      * simpl in D. apply app_inv_head in D. subst a0. apply Hend.
      * rewrite <- app_assoc in D. apply app_inv_head in D. subst a0.
        rewrite last_piece_cons by apply split_fuel_nonempty.
        apply IH. rewrite !length_app in *.
        destruct sep; [discriminate|]. simpl in *. lia.
    + rewrite length_app in Hle.
      destruct l; [|simpl in Hle; lia].
      simpl in D. apply app_inv_head in D. subst a0. apply Hend.
Qed.

(** The last piece of a split is the text after the last occurrence. *)
Lemma split_last (sep a b : str) :
  head_unique sep = true ->
  contains sep b = false ->
  last_piece (split sep (a ++ sep ++ b)) = b.
Proof.
  intros Hu Hb. unfold split. now apply split_fuel_last.
Qed.

(** ** [strip] *)

Lemma lstrip_by_snoc_false (f : char -> bool) (s : str) (d : char) :
  f d = false -> lstrip_by f (s ++ [d]) = lstrip_by f s ++ [d].
Proof.
  intros Hd. induction s as [|c s IH]; simpl.
  - now rewrite Hd.
  - now destruct (f c).
Qed.

Lemma rstrip_by_snoc_false (f : char -> bool) (s : str) (d : char) :
  f d = false -> rstrip_by f (s ++ [d]) = s ++ [d].
Proof.
  intros Hd. unfold rstrip_by. rewrite rev_app_distr. simpl.
  rewrite Hd. simpl. now rewrite rev_involutive.
Qed.

Lemma rstrip_by_snoc_true (f : char -> bool) (s : str) (d : char) :
  f d = true -> rstrip_by f (s ++ [d]) = rstrip_by f s.
Proof.
  intros Hd. unfold rstrip_by. rewrite rev_app_distr. simpl.
  now rewrite Hd.
Qed.

Lemma rstrip_by_cons_false (f : char -> bool) (c : char) (s : str) :
  f c = false -> rstrip_by f (c :: s) = c :: rstrip_by f s.
Proof.
  intros Hc. unfold rstrip_by. simpl rev.
  rewrite (lstrip_by_snoc_false _ _ _ Hc), rev_app_distr. reflexivity.
Qed.

(** What is left by [strip] neither starts nor ends with a stripped
    character. *)
Lemma lstrip_by_head (f : char -> bool) (s : str) (c : char) (r : str) :
  lstrip_by f s = c :: r -> f c = false.
Proof.
  induction s as [|d s IH]; simpl; [discriminate|].
  destruct (f d) eqn:E; [assumption|].
  intros H; inversion H; now subst.
Qed.

Lemma strip_by_head (f : char -> bool) (s : str) (c : char) (r : str) :
  strip_by f s = c :: r -> f c = false.
Proof.
  unfold strip_by. destruct (lstrip_by f s) as [|d t] eqn:E.
  - discriminate.
  - pose proof (lstrip_by_head _ _ _ _ E) as Hd.
    rewrite (rstrip_by_cons_false _ _ _ Hd).
    intros H; inversion H; now subst.
Qed.

Lemma strip_by_last (f : char -> bool) (s : str) (c : char) (r : str) :
  strip_by f s = r ++ [c] -> f c = false.
Proof.
  unfold strip_by, rstrip_by. intros H.
  apply (f_equal (@rev char)) in H.
  rewrite rev_involutive, rev_app_distr in H. simpl in H.
  now apply lstrip_by_head in H.
Qed.

(** A text that neither starts nor ends with a stripped character is
    left as it is. *)
Lemma strip_by_id (f : char -> bool) (s : str) :
  f (hd 0%N s) = false -> f (last s 0%N) = false -> strip_by f s = s.
Proof.
  intros Hh Hl. destruct s as [|c s]; [reflexivity|].
  unfold strip_by. simpl hd in Hh. simpl lstrip_by. rewrite Hh.
  assert (Hne : c :: s <> []) by discriminate.
  rewrite (app_removelast_last 0%N Hne).
  now apply rstrip_by_snoc_false.
Qed.

(** One stripped character at each end makes no difference. *)
Lemma strip_by_wrapped (f : char -> bool) (c d : char) (s : str) :
  f c = true -> f d = true ->
  strip_by f (c :: s ++ [d]) = strip_by f s.
Proof.
  intros Hc Hd. unfold strip_by. simpl lstrip_by. rewrite Hc.
  induction s as [|e s IH]; simpl.
  - now rewrite Hd.
  - destruct (f e); [assumption|].
    now rewrite app_comm_cons, rstrip_by_snoc_true.
Qed.

(** ** The action pattern *)

Lemma re_search_unfold (s : str) :
  re_search s =
  match match_here s with
  | Some groups => Some groups
  | None => match s with [] => None | _ :: s' => re_search s' end
  end.
Proof. destruct s; reflexivity. Qed.

Lemma match_here_ACTION (r : str) :
  match_here (ACTION ++ r) = cut ACTION_INPUT r.
Proof. unfold match_here. now rewrite strip_prefix_app. Qed.

Lemma match_here_sound (s g1 g2 : str) :
  match_here s = Some (g1, g2) -> s = ACTION ++ g1 ++ ACTION_INPUT ++ g2.
Proof.
  unfold match_here. destruct (strip_prefix ACTION s) as [r|] eqn:E;
    [|discriminate].
  intros H. apply strip_prefix_Some in E. apply cut_sound in H.
  now subst.
Qed.

(** A match is an occurrence of the pattern in the text... *)
Lemma re_search_sound (s g1 g2 : str) :
  re_search s = Some (g1, g2) ->
  exists p, s = p ++ ACTION ++ g1 ++ ACTION_INPUT ++ g2.
Proof.
  induction s as [|c s IH]; rewrite re_search_unfold.
  - destruct (match_here []) as [g|] eqn:E; [|discriminate].
    intros H; inversion H; subst. exists []. now apply match_here_sound.
  - destruct (match_here (c :: s)) as [g|] eqn:E.
    + intros H; inversion H; subst. exists []. now apply match_here_sound.
    + intros H. destruct (IH H) as [p ->]. now exists (c :: p).
Qed.

(** ... and a text in which the pattern occurs has a match. *)
Lemma re_search_complete (p x y : str) :
  re_search (p ++ ACTION ++ x ++ ACTION_INPUT ++ y) <> None.
Proof.
  induction p as [|c p IH]; rewrite re_search_unfold.
  - cbn [app]. rewrite match_here_ACTION.
    destruct (cut_complete ACTION_INPUT x y) as (b & a & -> & _).
    discriminate.
  - destruct (match_here ((c :: p) ++ _)); [discriminate|]. exact IH.
Qed.

Lemma re_search_None_iff (s : str) :
  re_search s = None <->
  forall p x y, s <> p ++ ACTION ++ x ++ ACTION_INPUT ++ y.
Proof.
  split.
  - intros H p x y ->. now apply re_search_complete in H.
  - intros H. destruct (re_search s) as [[g1 g2]|] eqn:E; [|reflexivity].
    apply re_search_sound in E. destruct E as [p E]. now apply H in E.
Qed.

(** The groups of the match: the first [Action: ] of the text opens the
    first group, the first [Action Input: ] line after it closes it. *)
Lemma re_search_first (pre x rest : str) :
  contains ACTION pre = false ->
  contains ACTION_INPUT x = false ->
  re_search (pre ++ ACTION ++ x ++ ACTION_INPUT ++ rest) = Some (x, rest).
Proof.
  intros Hpre Hx. induction pre as [|c pre IH]; rewrite re_search_unfold.
  - cbn [app]. rewrite match_here_ACTION.
    now rewrite (cut_app_first _ _ _ head_unique_ACTION_INPUT Hx).
  - destruct (contains_cons_false _ _ _ Hpre) as [_ Hpre'].
    destruct (match_here ((c :: pre) ++ _)) as [[g1 g2]|] eqn:E.
    + apply match_here_sound in E.
      destruct (no_overlap ACTION (c :: pre) _ _ head_unique_ACTION E)
        as [H|[x' H]]; [discriminate|].
      assert (contains ACTION (c :: pre) = true)
        by (apply contains_true_iff; exists [], x'; now rewrite H).
      congruence.
    + now apply IH.
Qed.

(** ** The classification *)

Lemma parse_final (a b : str) :
  contains FINAL_ANSWER b = false ->
  parse (a ++ FINAL_ANSWER ++ b) = FinalAnswer (strip b).
Proof.
  intros Hb. unfold parse.
  assert (contains FINAL_ANSWER (a ++ FINAL_ANSWER ++ b) = true) as ->
    by (apply contains_true_iff; eauto).
  now rewrite (split_last _ a b head_unique_FINAL_ANSWER Hb).
Qed.

Lemma parse_action (output g1 g2 : str) :
  contains FINAL_ANSWER output = false ->
  re_search output = Some (g1, g2) ->
  parse output = Action (strip g1) (strip_chars [DQUOTE] (strip g2)).
Proof. intros H1 H2. unfold parse. now rewrite H1, H2. Qed.

Lemma parse_unparseable (output : str) :
  contains FINAL_ANSWER output = false ->
  re_search output = None ->
  parse output = Unparseable.
Proof. intros H1 H2. unfold parse. now rewrite H1, H2. Qed.


(** ** What [strip] removes *)

Lemma lstrip_by_decomp (f : char -> bool) (s : str) :
  exists l, s = l ++ lstrip_by f s /\ forallb f l = true.
Proof.
  induction s as [|c s (l & E & Hl)]; simpl.
  - now exists [].
  - destruct (f c) eqn:Hc.
    + exists (c :: l). simpl. rewrite Hc, Hl. now rewrite <- E.
    + now exists [].
Qed.

Lemma rstrip_by_decomp (f : char -> bool) (s : str) :
  exists r, s = rstrip_by f s ++ r /\ forallb f r = true.
Proof.
  unfold rstrip_by.
  destruct (lstrip_by_decomp f (rev s)) as (l & E & Hl).
  exists (rev l). split.
  - rewrite <- rev_app_distr, <- E. now rewrite rev_involutive.
  - rewrite forallb_forall in *. intros c Hc. apply Hl.
    now apply in_rev.
Qed.

Lemma strip_by_decomp (f : char -> bool) (s : str) :
  exists l r,
    s = l ++ strip_by f s ++ r /\ forallb f l = true /\ forallb f r = true.
Proof.
  unfold strip_by.
  destruct (lstrip_by_decomp f s) as (l & El & Hl).
  destruct (rstrip_by_decomp f (lstrip_by f s)) as (r & Er & Hr).
  exists l, r. now rewrite <- Er, <- El.
Qed.

Lemma strip_by_ends (f : char -> bool) (s : str) :
  f 0%N = false ->
  f (hd 0%N (strip_by f s)) = false /\ f (last (strip_by f s) 0%N) = false.
Proof.
  intros H0. destruct (strip_by f s) as [|c r] eqn:D; [now split|].
  split.
  - now apply strip_by_head in D.
  - assert (Hne : c :: r <> []) by discriminate.
    pose proof (app_removelast_last 0%N Hne) as L.
    rewrite <- D in L at 1. now apply strip_by_last in L.
Qed.

(** What [strip] returns, said without [strip]: the text is the result
    between a run of stripped characters on each side, and the result
    neither starts nor ends with a stripped character. *)
Lemma strip_by_trimmed (f : char -> bool) (s : str) :
  f 0%N = false ->
  exists l t,
    s = l ++ strip_by f s ++ t /\
    forallb f l = true /\ forallb f t = true /\
    f (hd 0%N (strip_by f s)) = false /\
    f (last (strip_by f s) 0%N) = false.
Proof.
  intros H0. destruct (strip_by_decomp f s) as (l & t & D & Hl & Ht).
  destruct (strip_by_ends f s H0) as [A B].
  exists l, t. now repeat split.
Qed.

Lemma lstrip_by_all (f : char -> bool) (l s : str) :
  forallb f l = true -> lstrip_by f (l ++ s) = lstrip_by f s.
Proof.
  induction l as [|c l IH]; simpl; [reflexivity|].
  intros H. apply andb_true_iff in H. destruct H as [Hc Hl].
  rewrite Hc. now apply IH.
Qed.

Lemma lstrip_by_nil (f : char -> bool) (l : str) :
  forallb f l = true -> lstrip_by f l = [].
Proof.
  intros H. rewrite <- (app_nil_r l). now rewrite lstrip_by_all.
Qed.

Lemma forallb_rev (f : char -> bool) (l : str) :
  forallb f l = true -> forallb f (rev l) = true.
Proof.
  rewrite !forallb_forall. intros H x Hx. apply H. now apply in_rev.
Qed.

Lemma rstrip_by_all (f : char -> bool) (s t : str) :
  forallb f t = true -> rstrip_by f (s ++ t) = rstrip_by f s.
Proof.
  intros H. unfold rstrip_by. rewrite rev_app_distr.
  now rewrite lstrip_by_all by now apply forallb_rev.
Qed.

(** ... and these properties leave no choice: a text in the middle of
    the stripped characters that neither starts nor ends with one is
    what [strip] returns. *)
Lemma strip_by_unique (f : char -> bool) (s l r t : str) :
  f 0%N = false ->
  s = l ++ r ++ t ->
  forallb f l = true -> forallb f t = true ->
  f (hd 0%N r) = false -> f (last r 0%N) = false ->
  strip_by f s = r.
Proof.
  intros H0 -> Hl Ht Hh Hla. unfold strip_by.
  rewrite lstrip_by_all by assumption.
  destruct r as [|c r].
  - simpl app. now rewrite (lstrip_by_nil f t Ht).
  - simpl in Hh. cbn [app lstrip_by]. rewrite Hh.
    rewrite app_comm_cons, rstrip_by_all by assumption.
    assert (Hne : c :: r <> []) by discriminate.
    rewrite (app_removelast_last 0%N Hne).
    apply rstrip_by_snoc_false. exact Hla.
Qed.

Lemma is_quote_spec (c : char) : is_quote c = true <-> c = DQUOTE.
Proof.
  unfold is_quote. simpl. rewrite orb_false_r. apply N.eqb_eq.
Qed.

Lemma is_quote_false (c : char) : c <> DQUOTE -> is_quote c = false.
Proof.
  intros H. destruct (is_quote c) eqn:E; [|reflexivity].
  now apply is_quote_spec in E.
Qed.

(** ** The parser *)

(** C2, as amended.  A block without [Final Answer:] whose first
    [Action: ] is followed by X, a line break and [Action Input: ] with
    Y in double quotes parses to an action.  Its name is X trimmed: X
    is the name between two runs of white space, and the name neither
    starts nor ends with white space.  Its input is Y without the
    double quotes at its ends: Y is the input between two runs of
    double quotes, and the input neither starts nor ends with a double
    quote.  So the input is Y itself exactly when Y neither starts nor
    ends with a double quote. *)
Theorem action_block_parsed (pre X Y : str) :
  let block :=
    pre ++ ACTION ++ X ++ ACTION_INPUT ++ [DQUOTE] ++ Y ++ [DQUOTE] in
  contains FINAL_ANSWER block = false ->
  contains ACTION pre = false ->
  contains ACTION_INPUT X = false ->
  parse block = Action (strip X) (strip_chars [DQUOTE] Y) /\
  (exists l t,
     X = l ++ strip X ++ t /\
     forallb isspace l = true /\ forallb isspace t = true /\
     isspace (hd 0%N (strip X)) = false /\
     isspace (last (strip X) 0%N) = false) /\
  (exists ql qr,
     Y = ql ++ strip_chars [DQUOTE] Y ++ qr /\
     forallb is_quote ql = true /\ forallb is_quote qr = true /\
     hd 0%N (strip_chars [DQUOTE] Y) <> DQUOTE /\
     last (strip_chars [DQUOTE] Y) 0%N <> DQUOTE) /\
  (hd 0%N Y <> DQUOTE -> last Y 0%N <> DQUOTE ->
   parse block = Action (strip X) Y) /\
  (parse block = Action (strip X) Y ->
   hd 0%N Y <> DQUOTE /\ last Y 0%N <> DQUOTE).
Proof.
  intros block HF Hpre HX.
  assert (P : parse block = Action (strip X) (strip_chars [DQUOTE] Y)).
  { rewrite (parse_action block X ([DQUOTE] ++ Y ++ [DQUOTE]) HF)
      by (now apply re_search_first).
    f_equal. cbn [app].
    assert (strip (DQUOTE :: Y ++ [DQUOTE]) = DQUOTE :: Y ++ [DQUOTE]) as ->.
    { unfold strip, strip_by. cbn [lstrip_by].
      change (isspace DQUOTE) with false. cbv iota.
      rewrite app_comm_cons. now apply rstrip_by_snoc_false. }
    unfold strip_chars. now apply strip_by_wrapped. }
  assert (Q : exists ql qr,
     Y = ql ++ strip_chars [DQUOTE] Y ++ qr /\
     forallb is_quote ql = true /\ forallb is_quote qr = true /\
     hd 0%N (strip_chars [DQUOTE] Y) <> DQUOTE /\
     last (strip_chars [DQUOTE] Y) 0%N <> DQUOTE).
  { unfold strip_chars. fold is_quote.
    destruct (strip_by_trimmed is_quote Y eq_refl)
      as (ql & qr & D & Hl & Hr & Hh & Hla).
    exists ql, qr. repeat split; try assumption.
    - intros E. apply is_quote_spec in E.
      exact (eq_true_false_abs _ E Hh).
    - intros E. apply is_quote_spec in E.
      exact (eq_true_false_abs _ E Hla). }
  split; [exact P|]. split; [exact (strip_by_trimmed isspace X eq_refl)|].
  split; [exact Q|]. split.
  - intros Hh Hl. rewrite P. f_equal. unfold strip_chars.
    apply (strip_by_id is_quote); now apply is_quote_false.
  - intros P'.
    assert (E : strip_chars [DQUOTE] Y = Y) by congruence.
    destruct Q as (ql & qr & _ & _ & _ & Hh & Hla).
    rewrite E in Hh, Hla. now split.
Qed.



(** C2, as stated, fails: when Y itself is in double quotes, the input
    is not Y but Y without them. *)
Lemma quoted_input_not_kept :
  let X := lit "T" in
  let Y := [DQUOTE] ++ lit "hi" ++ [DQUOTE] in
  let block :=
    [] ++ ACTION ++ X ++ ACTION_INPUT ++ [DQUOTE] ++ Y ++ [DQUOTE] in
  contains FINAL_ANSWER block = false /\
  contains ACTION [] = false /\
  contains ACTION_INPUT X = false /\
  parse block = Action (lit "T") (lit "hi") /\
  parse block <> Action (lit "T") Y.
Proof.
  repeat split; try reflexivity. vm_compute. discriminate.
Qed.

(** ** The loop body *)

Section Properties.

Context {World : Type}.
Implicit Types (self : ReActAgent World) (st : State World) (w : World).

Lemma step_final self st output w1 answer :
  generate (llm self) (history st) STOP (world st) = (output, w1) ->
  parse output = FinalAnswer answer ->
  step self st = (Return answer, after_block st output w1 []).
Proof.
  intros G P. unfold step, after_block. rewrite G, P.
  now rewrite app_nil_r.
Qed.

Lemma step_unparseable self st output w1 :
  generate (llm self) (history st) STOP (world st) = (output, w1) ->
  parse output = Unparseable ->
  step self st =
  (Break,
   after_block st output w1
     [Printed (lit "Error: Could not parse action. Ending.")]).
Proof. intros G P. unfold step, after_block. now rewrite G, P. Qed.

Lemma step_action self st output w1 nm inp obs w2 events :
  generate (llm self) (history st) STOP (world st) = (output, w1) ->
  parse output = Action nm inp ->
  dispatch self nm inp w1 = (obs, w2, events) ->
  step self st = (Continue, after_observation st output events obs w2).
Proof.
  intros G P D. unfold step, after_observation. now rewrite G, P, D.
Qed.

Lemma dispatch_missing self nm inp w :
  dict_get (tools self) nm = None ->
  dispatch self nm inp w =
  (lit "Error: Tool '" ++ nm ++ lit "' not found.", w, []).
Proof. intros H. unfold dispatch. now rewrite H. Qed.

Lemma dispatch_raised self nm inp w tool message w' :
  dict_get (tools self) nm = Some tool ->
  run_tool tool inp w = (Raised message, w') ->
  dispatch self nm inp w =
  (lit "Error: " ++ message, w', executing nm inp (Raised message)).
Proof. intros H T. unfold dispatch. now rewrite H, T. Qed.

Lemma dispatch_returned self nm inp w tool result w' :
  dict_get (tools self) nm = Some tool ->
  run_tool tool inp w = (Returned result, w') ->
  dispatch self nm inp w =
  (result, w', executing nm inp (Returned result)).
Proof. intros H T. unfold dispatch. now rewrite H, T. Qed.

(** ** The loop *)

Lemma loop_S self n st :
  loop self (S n) st =
  match step self st with
  | (Return result, st') => (Returned_from_loop result, st')
  | (Break, st') => (Broke, st')
  | (Continue, st') => loop self n st'
  end.
Proof. reflexivity. Qed.

(** [k] passes that all reach the end of the body, then the rest. *)
Lemma loop_add self k n st st' :
  loop self k st = (Exhausted, st') ->
  loop self (k + n) st = loop self n st'.
Proof.
  revert st. induction k as [|k IH]; intros st H.
  - simpl in H. now inversion H.
  - simpl plus. rewrite loop_S in *.
    destruct (step self st) as [[| |r] st1]; try discriminate.
    now apply IH.
Qed.

Lemma run_resume self query max_steps w k st :
  (Z.of_nat k <= max_steps)%Z ->
  loop self k (start self query w) = (Exhausted, st) ->
  run self query max_steps w =
  finish (loop self (Z.to_nat max_steps - k) st).
Proof.
  intros Hk L. unfold run.
  replace (Z.to_nat max_steps) with (k + (Z.to_nat max_steps - k)) at 1
    by lia.
  now rewrite (loop_add _ _ _ _ _ L).
Qed.

Lemma run_next self query max_steps w k st :
  (Z.of_nat k < max_steps)%Z ->
  loop self k (start self query w) = (Exhausted, st) ->
  run self query max_steps w =
  finish (loop self (S (Z.to_nat max_steps - S k)) st).
Proof.
  intros Hk L. rewrite (run_resume _ _ _ _ k st) by (assumption || lia).
  do 2 f_equal. lia.
Qed.

Lemma loop_extend self k st st1 st2 :
  loop self k st = (Exhausted, st1) ->
  step self st1 = (Continue, st2) ->
  loop self (S k) st = (Exhausted, st2).
Proof.
  intros L T. replace (S k) with (k + 1) by lia.
  rewrite (loop_add _ _ _ _ _ L), loop_S, T. reflexivity.
Qed.

Lemma snd_finish (r : Exit * State World) : snd (finish r) = snd r.
Proof. now destruct r as [[r| |] st]. Qed.

(** The log only grows, and a pass starts with a call of the
    language model on the history so far. *)
Lemma step_log self st :
  exists more,
    log (snd (step self st)) =
    log st ++
    Generated (history st) STOP
      (fst (generate (llm self) (history st) STOP (world st))) :: more.
Proof.
  unfold step.
  destruct (generate (llm self) (history st) STOP (world st)) as [o w1].
  destruct (parse o) as [a|nm inp|]; simpl.
  - now exists [Printed o].
  - destruct (dispatch self nm inp w1) as [[obs w2] ev]. simpl.
    exists (Printed o :: ev ++ [Printed (lit "Observation: " ++ obs)]).
    now rewrite <- app_assoc.
  - exists [Printed o;
            Printed (lit "Error: Could not parse action. Ending.")].
    now rewrite <- app_assoc.
Qed.

Lemma loop_log self n st :
  exists more, log (snd (loop self n st)) = log st ++ more.
Proof.
  revert st. induction n as [|n IH]; intros st.
  - exists []. simpl. now rewrite app_nil_r.
  - rewrite loop_S. destruct (step_log self st) as [m1 E1].
    destruct (step self st) as [[| |r] st1]; simpl in *;
      try (eexists; eassumption).
    destruct (IH st1) as [m2 E2]. rewrite E2, E1.
    eexists. rewrite <- app_assoc. reflexivity.
Qed.

Lemma loop_log_head self n st :
  exists more,
    log (snd (loop self (S n) st)) =
    log st ++
    Generated (history st) STOP
      (fst (generate (llm self) (history st) STOP (world st))) :: more.
Proof.
  rewrite loop_S. destruct (step_log self st) as [m1 E1].
  destruct (step self st) as [[| |r] st1]; simpl in *;
    try (eexists; eassumption).
  destruct (loop_log self n st1) as [m2 E2]. rewrite E2, E1.
  eexists. rewrite <- app_assoc. reflexivity.
Qed.

Lemma run_at self query max_steps w k st :
  (Z.of_nat k < max_steps)%Z ->
  loop self k (start self query w) = (Exhausted, st) ->
  run self query max_steps w =
  finish
    match step self st with
    | (Return result, st') => (Returned_from_loop result, st')
    | (Break, st') => (Broke, st')
    | (Continue, st') => loop self (Z.to_nat max_steps - S k) st'
    end.
Proof.
  intros Hk L. rewrite (run_next _ _ _ _ k st Hk L). now rewrite loop_S.
Qed.

(** ** Counting the calls *)

Lemma generation_calls_app (l1 l2 : list Event) :
  generation_calls (l1 ++ l2) = generation_calls l1 + generation_calls l2.
Proof. unfold generation_calls. now rewrite filter_app, length_app. Qed.

Lemma tool_calls_app (l1 l2 : list Event) :
  tool_calls (l1 ++ l2) = tool_calls l1 + tool_calls l2.
Proof. unfold tool_calls. now rewrite filter_app, length_app. Qed.

Lemma dispatch_events self nm inp w obs w2 events :
  dispatch self nm inp w = (obs, w2, events) ->
  generation_calls events = 0 /\ tool_calls events <= 1.
Proof.
  unfold dispatch. destruct (dict_get (tools self) nm) as [tool|].
  - destruct (run_tool tool inp w) as [outcome w'].
    intros H; inversion H; subst. cbv. lia.
  - intros H; inversion H; subst. cbv. lia.
Qed.

Lemma step_calls self st :
  generation_calls (log (snd (step self st))) =
    S (generation_calls (log st)) /\
  tool_calls (log (snd (step self st))) <= S (tool_calls (log st)).
Proof.
  unfold step.
  destruct (generate (llm self) (history st) STOP (world st)) as [o w1].
  destruct (parse o) as [a|nm inp|].
  - cbn [snd log]. rewrite generation_calls_app, tool_calls_app.
    cbv [generation_calls tool_calls filter is_generated is_executed length].
    lia.
  - destruct (dispatch self nm inp w1) as [[obs w2] ev] eqn:D.
    apply dispatch_events in D. destruct D as [D1 D2].
    cbn [snd log]. rewrite !generation_calls_app, !tool_calls_app.
    rewrite D1.
    cbv [generation_calls tool_calls filter is_generated is_executed length]
      in *.
    lia.
  - cbn [snd log]. rewrite !generation_calls_app, !tool_calls_app.
    cbv [generation_calls tool_calls filter is_generated is_executed length].
    lia.
Qed.

Lemma loop_generation_calls self n st :
  generation_calls (log (snd (loop self n st))) <=
  generation_calls (log st) + n.
Proof.
  revert st. induction n as [|n IH]; intros st.
  - simpl. lia.
  - rewrite loop_S. destruct (step_calls self st) as [E _].
    destruct (step self st) as [[| |r] st1]; cbn [snd] in *; try lia.
    specialize (IH st1). lia.
Qed.

(** ** The run *)

(** C1.  When the block generated in a pass of the loop contains
    [Final Answer:], with [b] the text after its last occurrence, the
    block is classified as a final answer, whatever action pattern it
    has, and the run returns [b] trimmed of the white space around it:
    [b] is the result between two runs of white space, and the result
    neither starts nor ends with white space.  The block and its line
    break are appended to the history, and the log gains the call of
    the language model and the print of the block and nothing else:
    no tool is called. *)
Theorem final_answer_returned self query max_steps w k st a b w1 :
  (Z.of_nat k < max_steps)%Z ->
  loop self k (start self query w) = (Exhausted, st) ->
  generate (llm self) (history st) STOP (world st) =
    (a ++ FINAL_ANSWER ++ b, w1) ->
  contains FINAL_ANSWER b = false ->
  parse (a ++ FINAL_ANSWER ++ b) = FinalAnswer (strip b) /\
  run self query max_steps w =
    (strip b, after_block st (a ++ FINAL_ANSWER ++ b) w1 []) /\
  tool_calls (log (snd (run self query max_steps w))) = tool_calls (log st) /\
  (exists l t,
     b = l ++ fst (run self query max_steps w) ++ t /\
     forallb isspace l = true /\ forallb isspace t = true /\
     isspace (hd 0%N (fst (run self query max_steps w))) = false /\
     isspace (last (fst (run self query max_steps w)) 0%N) = false).
Proof.
  intros Hk L G Hb. pose proof (parse_final a b Hb) as P.
  assert (E : run self query max_steps w =
              (strip b, after_block st (a ++ FINAL_ANSWER ++ b) w1 [])).
  { rewrite (run_at _ _ _ _ k st Hk L).
    now rewrite (step_final _ _ _ _ _ G P). }
  split; [exact P|]. split; [exact E|]. rewrite E. cbn [fst snd]. split.
  - cbn [after_block log].
    rewrite !tool_calls_app. cbv [tool_calls filter is_executed length]. lia.
  - exact (strip_by_trimmed isspace b eq_refl).
Qed.

(** C4.  When the block generated in a pass of the loop has neither
    [Final Answer:] nor a match of the action pattern, the run ends
    there with the sentinel: after the call of the language model the
    log gains two prints, no tool is called and the language model is
    not called again. *)
Theorem unparseable_block_aborts self query max_steps w k st output w1 :
  (Z.of_nat k < max_steps)%Z ->
  loop self k (start self query w) = (Exhausted, st) ->
  generate (llm self) (history st) STOP (world st) = (output, w1) ->
  contains FINAL_ANSWER output = false ->
  re_search output = None ->
  run self query max_steps w =
    (SENTINEL,
     after_block st output w1
       [Printed (lit "Error: Could not parse action. Ending.")]) /\
  generation_calls (log (snd (run self query max_steps w))) =
    S (generation_calls (log st)) /\
  tool_calls (log (snd (run self query max_steps w))) = tool_calls (log st).
Proof.
  intros Hk L G HF HA. pose proof (parse_unparseable _ HF HA) as P.
  assert (E : run self query max_steps w =
    (SENTINEL,
     after_block st output w1
       [Printed (lit "Error: Could not parse action. Ending.")])).
  { rewrite (run_at _ _ _ _ k st Hk L).
    now rewrite (step_unparseable _ _ _ _ G P). }
  rewrite E. cbn [snd after_block log].
  rewrite !generation_calls_app, !tool_calls_app.
  repeat split;
    cbv [generation_calls tool_calls filter is_generated is_executed length];
    lia.
Qed.

Lemma run_continues self query max_steps w k st st' :
  (Z.of_nat k < max_steps)%Z ->
  loop self k (start self query w) = (Exhausted, st) ->
  step self st = (Continue, st') ->
  loop self (S k) (start self query w) = (Exhausted, st') /\
  run self query max_steps w =
    finish (loop self (Z.to_nat max_steps - S k) st') /\
  ((Z.of_nat (S k) < max_steps)%Z ->
   exists more,
     log (snd (run self query max_steps w)) =
     log st' ++
     Generated (history st') STOP
       (fst (generate (llm self) (history st') STOP (world st'))) :: more).
Proof.
  intros Hk L T. pose proof (loop_extend _ _ _ _ _ L T) as L'.
  split; [exact L'|]. split.
  - rewrite (run_at _ _ _ _ k st Hk L). now rewrite T.
  - intros Hk'. rewrite (run_next _ _ _ _ (S k) st' Hk' L'), snd_finish.
    apply loop_log_head.
Qed.

(** C5.  When the block generated in a pass parses to an action whose
    name is not a key of the tools, the run goes on: the observation
    [Error: Tool 'name' not found.] is appended to the history after
    the block, no tool is called, the pass ends as a completed one,
    the run continues from there with the steps that are left, and if
    a step is left the next thing the run does is call the language
    model on the extended history. *)
Theorem unknown_tool_recovers self query max_steps w k st output w1 nm inp :
  (Z.of_nat k < max_steps)%Z ->
  loop self k (start self query w) = (Exhausted, st) ->
  generate (llm self) (history st) STOP (world st) = (output, w1) ->
  parse output = Action nm inp ->
  dict_get (tools self) nm = None ->
  let observation := lit "Error: Tool '" ++ nm ++ lit "' not found." in
  let st' := after_observation st output [] observation w1 in
  loop self (S k) (start self query w) = (Exhausted, st') /\
  run self query max_steps w =
    finish (loop self (Z.to_nat max_steps - S k) st') /\
  ((Z.of_nat (S k) < max_steps)%Z ->
   exists more,
     log (snd (run self query max_steps w)) =
     log st' ++
     Generated (history st') STOP
       (fst (generate (llm self) (history st') STOP w1)) :: more).
Proof.
  intros Hk L G P M observation st'.
  apply (run_continues self query max_steps w k st st' Hk L).
  apply (step_action _ _ _ _ _ _ _ _ _ G P).
  now apply dispatch_missing.
Qed.

(** C6.  When the block generated in a pass parses to an action whose
    tool is registered and the call of the tool raises an exception
    with message [message], the run goes on: the observation is
    [Error: ] followed by the message, it is appended to the history
    after the block, the pass ends as a completed one, the run
    continues from there with the steps that are left, and if a step
    is left the next thing the run does is call the language model on
    the extended history. *)
Theorem tool_error_recovers
    self query max_steps w k st output w1 nm inp tool message w2 :
  (Z.of_nat k < max_steps)%Z ->
  loop self k (start self query w) = (Exhausted, st) ->
  generate (llm self) (history st) STOP (world st) = (output, w1) ->
  parse output = Action nm inp ->
  dict_get (tools self) nm = Some tool ->
  run_tool tool inp w1 = (Raised message, w2) ->
  let observation := lit "Error: " ++ message in
  let st' :=
    after_observation st output (executing nm inp (Raised message))
      observation w2 in
  loop self (S k) (start self query w) = (Exhausted, st') /\
  run self query max_steps w =
    finish (loop self (Z.to_nat max_steps - S k) st') /\
  ((Z.of_nat (S k) < max_steps)%Z ->
   exists more,
     log (snd (run self query max_steps w)) =
     log st' ++
     Generated (history st') STOP
       (fst (generate (llm self) (history st') STOP w2)) :: more).
Proof.
  intros Hk L G P M T observation st'.
  apply (run_continues self query max_steps w k st st' Hk L).
  apply (step_action _ _ _ _ _ _ _ _ _ G P).
  now apply (dispatch_raised _ _ _ _ tool).
Qed.

Lemma parse_not_final (output : str) :
  contains FINAL_ANSWER output = false ->
  forall answer, parse output <> FinalAnswer answer.
Proof.
  intros H answer. unfold parse. rewrite H.
  now destruct (re_search output) as [[g1 g2]|].
Qed.

(** C7.  The run calls the language model at most [max_steps] times
    (not at all when the budget is not positive).  With a budget of
    one step and a first block without [Final Answer:], the run is
    one pass through the loop body: it ends in the state that pass
    leaves, with the sentinel as its result, after one call of the
    language model and at most one call of a tool. *)
Theorem budget_bounds_generation_calls self query max_steps w :
  (Z.of_nat (generation_calls (log (snd (run self query max_steps w))))
   <= Z.max 0 max_steps)%Z /\
  (forall output w1,
     generate (llm self) (system_prompt self query) STOP w = (output, w1) ->
     contains FINAL_ANSWER output = false ->
     run self query 1 w = (SENTINEL, snd (step self (start self query w))) /\
     generation_calls (log (snd (run self query 1 w))) = 1 /\
     tool_calls (log (snd (run self query 1 w))) <= 1).
Proof.
  split.
  - unfold run. rewrite snd_finish.
    pose proof (loop_generation_calls self (Z.to_nat max_steps)
                  (start self query w)) as H.
    change (generation_calls (log (start self query w))) with 0 in H.
    lia.
  - intros output w1 G HF.
    assert (E : run self query 1 w =
                (SENTINEL, snd (step self (start self query w)))).
    { unfold run. change (Z.to_nat 1) with 1. rewrite loop_S.
      unfold step. cbn [start history world log]. rewrite G.
      pose proof (parse_not_final output HF) as NF.
      destruct (parse output) as [a|nm inp|].
      - now elim (NF a).
      - now destruct (dispatch self nm inp w1) as [[obs w2] ev].
      - reflexivity. }
    rewrite E. cbn [snd].
    destruct (step_calls self (start self query w)) as [C1 C2].
    change (generation_calls (log (start self query w))) with 0 in C1.
    change (tool_calls (log (start self query w))) with 0 in C2.
    repeat split; [exact C1|exact C2].
Qed.

(** ** The history *)

Lemma step_history self st :
  history (snd (step self st)) =
  history st ++
  (fst (generate (llm self) (history st) STOP (world st)) ++ LF) ++
  match parse (fst (generate (llm self) (history st) STOP (world st))) with
  | Action nm inp =>
      lit "Observation: " ++
      fst (fst (dispatch self nm inp
                  (snd (generate (llm self) (history st) STOP (world st)))))
      ++ LF
  | _ => []
  end.
Proof.
  unfold step.
  destruct (generate (llm self) (history st) STOP (world st)) as [o w1].
  cbn [fst snd].
  destruct (parse o) as [a|nm inp|]; cbn [snd history].
  - now rewrite app_nil_r.
  - destruct (dispatch self nm inp w1) as [[obs w2] ev].
    cbn [fst snd history]. now rewrite <- !app_assoc.
  - now rewrite app_nil_r.
Qed.

Lemma loop_history self n st :
  exists ext, history (snd (loop self n st)) = history st ++ ext.
Proof.
  revert st. induction n as [|n IH]; intros st.
  - exists []. simpl. now rewrite app_nil_r.
  - rewrite loop_S. pose proof (step_history self st) as E.
    destruct (step self st) as [[| |r] st1]; cbn [snd] in *;
      try (eexists; exact E).
    destruct (IH st1) as [ext2 E2]. rewrite E2, E.
    eexists. rewrite <- app_assoc. reflexivity.
Qed.

Lemma loop_split self j n st :
  loop self (j + n) st =
  match loop self j st with
  | (Exhausted, st') => loop self n st'
  | ended => ended
  end.
Proof.
  revert st. induction j as [|j IH]; intros st.
  - reflexivity.
  - simpl plus. rewrite !loop_S.
    destruct (step self st) as [[| |r] st1]; try reflexivity.
    apply IH.
Qed.

(** C8.  The history only grows at its end.  A pass through the loop
    body appends the generated block and a line break and, when the
    block is dispatched as an action, one observation line after it,
    and leaves what was there in front unchanged; the extension is
    never empty.  So the history of a run after any number of passes
    starts with the history after fewer passes. *)
Theorem history_append_only self :
  (forall st,
     history (snd (step self st)) =
     history st ++
     (fst (generate (llm self) (history st) STOP (world st)) ++ LF) ++
     match
       parse (fst (generate (llm self) (history st) STOP (world st)))
     with
     | Action nm inp =>
         lit "Observation: " ++
         fst (fst (dispatch self nm inp
                (snd (generate (llm self) (history st) STOP (world st)))))
         ++ LF
     | _ => []
     end) /\
  (forall st, exists ext,
     ext <> [] /\ history (snd (step self st)) = history st ++ ext) /\
  (forall j k st, j <= k -> exists ext,
     history (snd (loop self k st)) =
     history (snd (loop self j st)) ++ ext).
Proof.
  split; [apply step_history|]. split.
  - intros st. eexists. split; [|apply step_history].
    destruct (fst (generate (llm self) (history st) STOP (world st)));
      discriminate.
  - intros j k st Hjk. replace k with (j + (k - j)) by lia.
    rewrite loop_split.
    destruct (loop self j st) as [[r| |] st1]; cbn [snd];
      try (exists []; now rewrite app_nil_r).
    apply loop_history.
Qed.

(** ** Two runs *)

Lemma dispatch_alike R self nm inp v v' :
  tools_respect R self -> R v v' ->
  fst (fst (dispatch self nm inp v)) = fst (fst (dispatch self nm inp v')) /\
  snd (dispatch self nm inp v) = snd (dispatch self nm inp v') /\
  R (snd (fst (dispatch self nm inp v))) (snd (fst (dispatch self nm inp v'))).
Proof.
  intros HT HR. unfold dispatch.
  destruct (dict_get (tools self) nm) as [tool|] eqn:D.
  - destruct (HT nm tool inp v v' D HR) as [E1 E2].
    destruct (run_tool tool inp v) as [o1 v1].
    destruct (run_tool tool inp v') as [o2 v2].
    cbn [fst snd] in *. subst o2. now repeat split.
  - now repeat split.
Qed.

Lemma step_alike R self st st' :
  llm_respects R self -> tools_respect R self ->
  alike R st st' ->
  fst (step self st) = fst (step self st') /\
  alike R (snd (step self st)) (snd (step self st')).
Proof.
  intros HL HT (Eh & El & HR). unfold step. rewrite <- Eh, <- El.
  destruct (HL (history st) STOP _ _ HR) as [E1 E2].
  destruct (generate (llm self) (history st) STOP (world st)) as [o v1].
  destruct (generate (llm self) (history st) STOP (world st')) as [o' v1'].
  cbn [fst snd] in E1, E2. subst o'.
  destruct (parse o) as [a|nm inp|].
  - now repeat split.
  - destruct (dispatch_alike R self nm inp v1 v1' HT E2) as (D1 & D2 & D3).
    destruct (dispatch self nm inp v1) as [[obs v2] ev].
    destruct (dispatch self nm inp v1') as [[obs' v2'] ev'].
    cbn [fst snd] in *. subst obs' ev'. now repeat split.
  - now repeat split.
Qed.

Lemma loop_alike R self n st st' :
  llm_respects R self -> tools_respect R self ->
  alike R st st' ->
  fst (loop self n st) = fst (loop self n st') /\
  alike R (snd (loop self n st)) (snd (loop self n st')).
Proof.
  intros HL HT. revert st st'. induction n as [|n IH]; intros st st' A.
  - now split.
  - rewrite !loop_S. destruct (step_alike R self st st' HL HT A) as [F A'].
    destruct (step self st) as [f1 s1]. destruct (step self st') as [f2 s2].
    cbn [fst snd] in F, A'. subst f2.
    destruct f1; [now apply IH|now split|now split].
Qed.

(** C9.  Let the language model and the registered tools be
    deterministic: what they return depends on their arguments and on
    the world only, and worlds related by [R] give the same returns
    and related worlds.  Then two runs of the agent on the same query
    with the same budget, started in related worlds, give the same
    result, the same final history and the same log.  With equality
    for [R] this is the replay of a scripted backend from its start;
    with the full relation it is a backend and tools without hidden
    state. *)
Theorem run_deterministic
    (R : World -> World -> Prop) self query max_steps w w' :
  llm_respects R self ->
  tools_respect R self ->
  R w w' ->
  fst (run self query max_steps w) = fst (run self query max_steps w') /\
  history (snd (run self query max_steps w)) =
    history (snd (run self query max_steps w')) /\
  log (snd (run self query max_steps w)) =
    log (snd (run self query max_steps w')).
Proof.
  intros HL HT HR. unfold run.
  assert (A : alike R (start self query w) (start self query w'))
    by now repeat split.
  destruct (loop_alike R self (Z.to_nat max_steps) _ _ HL HT A)
    as [F (Eh & El & _)].
  destruct (loop self (Z.to_nat max_steps) (start self query w))
    as [e1 s1].
  destruct (loop self (Z.to_nat max_steps) (start self query w'))
    as [e2 s2].
  cbn [fst snd] in *. subst e2.
  destruct e1; cbn [finish fst snd]; now repeat split.
Qed.

(** C10.  A run that ends at a block that cannot be parsed and a run
    that ends because its steps are used up return the same text, the
    sentinel. *)
Theorem sentinel_shared
    self query max_steps w k st output w1
    self' query' max_steps' w' st' :
  (Z.of_nat k < max_steps)%Z ->
  loop self k (start self query w) = (Exhausted, st) ->
  generate (llm self) (history st) STOP (world st) = (output, w1) ->
  parse output = Unparseable ->
  loop self' (Z.to_nat max_steps') (start self' query' w') =
    (Exhausted, st') ->
  fst (run self query max_steps w) = SENTINEL /\
  fst (run self' query' max_steps' w') = SENTINEL /\
  fst (run self query max_steps w) = fst (run self' query' max_steps' w').
Proof.
  intros Hk L G P X.
  assert (E1 : fst (run self query max_steps w) = SENTINEL).
  { rewrite (run_at _ _ _ _ k st Hk L).
    now rewrite (step_unparseable _ _ _ _ G P). }
  assert (E2 : fst (run self' query' max_steps' w') = SENTINEL).
  { unfold run. now rewrite X. }
  repeat split; congruence.
Qed.

End Properties.

(** ** Last occurrences exist *)

Lemma contains_last_bounded (sep : str) :
  sep <> [] ->
  forall n s, length s <= n -> contains sep s = true ->
  exists a b, s = a ++ sep ++ b /\ contains sep b = false.
Proof.
  intros Hs. induction n as [|n IH]; intros s Hn Hc.
  - destruct s; [|simpl in Hn; lia].
    unfold contains in Hc. now rewrite cut_nil in Hc.
  - unfold contains in Hc.
    destruct (cut sep s) as [[b0 a0]|] eqn:E; [|discriminate].
    pose proof (cut_shorter _ _ _ _ Hs E) as Hlt.
    apply cut_sound in E.
    destruct (contains sep a0) eqn:C0.
    + destruct (IH a0 ltac:(lia) C0) as (a1 & b1 & -> & Hb1).
      exists (b0 ++ sep ++ a1), b1. split; [|assumption].
      now rewrite E, <- !app_assoc.
    + now exists b0, a0.
Qed.

(** Every text in which the marker occurs has a last occurrence. *)
Lemma contains_last (sep s : str) :
  sep <> [] -> contains sep s = true ->
  exists a b, s = a ++ sep ++ b /\ contains sep b = false.
Proof. intros Hs. now apply (contains_last_bounded sep Hs (length s)). Qed.

(** ** The scenarios *)

(** The end-to-end scenario: the calculator is asked, answers 4, and
    the second block gives the final answer, after two calls of the
    language model and one call of a tool. *)
Example scenario_two_cycles :
  let r := run scenario_agent (lit "What is 2 + 2?") 5 0 in
  fst r = lit "The answer is 4." /\
  generation_calls (log (snd r)) = 2 /\
  tool_calls (log (snd r)) = 1.
Proof. vm_compute. repeat split. Qed.

(** The demonstration of the source: the instructions that open the
    history contain [Action:] and [Final Answer], so the mock backend
    takes its last branch at its first call. *)
Example mock_demo :
  fst (run mock_agent (lit "What is the weather in Delhi?") 5 0) =
    lit "I don't know how to handle this." /\
  fst (run mock_agent (lit "What is 2 + 2?") 5 0) =
    lit "I don't know how to handle this.".
Proof. vm_compute. split; reflexivity. Qed.

(** The blocks of the two examples of the specification. *)
Example parse_last_final_answer :
  parse (lit "...Final Answer: wrong" ++ LF ++ lit "Final Answer: 42") =
  FinalAnswer (lit "42").
Proof. reflexivity. Qed.

Example parse_calculator :
  parse (action_block (lit "Calculator") (lit "2 + 2")) =
  Action (lit "Calculator") (lit "2 + 2").
Proof. reflexivity. Qed.

(** ** The theorems at work *)

Lemma final_answer_returned_witness :
  let self := scenario_agent in
  let query := lit "What is 2 + 2?" in
  let st := snd (loop self 1 (start self query 0)) in
  let b := lit " The answer is 4." in
  ((Z.of_nat 1 < 5)%Z /\
   loop self 1 (start self query 0) = (Exhausted, st) /\
   generate (llm self) (history st) STOP (world st) =
     ([] ++ FINAL_ANSWER ++ b, 2) /\
   contains FINAL_ANSWER b = false) /\
  (parse ([] ++ FINAL_ANSWER ++ b) = FinalAnswer (strip b) /\
   run self query 5 0 =
     (strip b, after_block st ([] ++ FINAL_ANSWER ++ b) 2 []) /\
   tool_calls (log (snd (run self query 5 0))) = tool_calls (log st) /\
   (exists l t,
      b = l ++ fst (run self query 5 0) ++ t /\
      forallb isspace l = true /\ forallb isspace t = true /\
      isspace (hd 0%N (fst (run self query 5 0))) = false /\
      isspace (last (fst (run self query 5 0)) 0%N) = false)).
Proof.
  intros self query st b.
  assert (H1 : (Z.of_nat 1 < 5)%Z) by reflexivity.
  assert (H2 : loop self 1 (start self query 0) = (Exhausted, st))
    by (vm_compute; reflexivity).
  assert (H3 : generate (llm self) (history st) STOP (world st) =
               ([] ++ FINAL_ANSWER ++ b, 2)) by (vm_compute; reflexivity).
  assert (H4 : contains FINAL_ANSWER b = false) by (vm_compute; reflexivity).
  split; [now repeat split|].
  exact (final_answer_returned self query 5 0 1 st [] b 2 H1 H2 H3 H4).
Defined.

Lemma action_block_parsed_witness :
  let pre := lit "Thought: I need to calculate 2 + 2." ++ LF in
  let X := lit "Calculator" in
  let Y := lit "2 + 2" in
  let block :=
    pre ++ ACTION ++ X ++ ACTION_INPUT ++ [DQUOTE] ++ Y ++ [DQUOTE] in
  (contains FINAL_ANSWER block = false /\
   contains ACTION pre = false /\
   contains ACTION_INPUT X = false) /\
  (parse block = Action (strip X) (strip_chars [DQUOTE] Y) /\
   (exists l t,
      X = l ++ strip X ++ t /\
      forallb isspace l = true /\ forallb isspace t = true /\
      isspace (hd 0%N (strip X)) = false /\
      isspace (last (strip X) 0%N) = false) /\
   (exists ql qr,
      Y = ql ++ strip_chars [DQUOTE] Y ++ qr /\
      forallb is_quote ql = true /\ forallb is_quote qr = true /\
      hd 0%N (strip_chars [DQUOTE] Y) <> DQUOTE /\
      last (strip_chars [DQUOTE] Y) 0%N <> DQUOTE) /\
   (hd 0%N Y <> DQUOTE -> last Y 0%N <> DQUOTE ->
    parse block = Action (strip X) Y) /\
   (parse block = Action (strip X) Y ->
    hd 0%N Y <> DQUOTE /\ last Y 0%N <> DQUOTE)).
Proof.
  intros pre X Y block.
  assert (H1 : contains FINAL_ANSWER block = false)
    by (vm_compute; reflexivity).
  assert (H2 : contains ACTION pre = false) by (vm_compute; reflexivity).
  assert (H3 : contains ACTION_INPUT X = false) by (vm_compute; reflexivity).
  split; [now repeat split|].
  exact (action_block_parsed pre X Y H1 H2 H3).
Defined.


Lemma unparseable_block_aborts_witness :
  let self := failing_agent in
  let query := lit "q" in
  let st := snd (loop self 2 (start self query 0)) in
  let output := lit "I give up." in
  ((Z.of_nat 2 < 5)%Z /\
   loop self 2 (start self query 0) = (Exhausted, st) /\
   generate (llm self) (history st) STOP (world st) = (output, 3) /\
   contains FINAL_ANSWER output = false /\
   re_search output = None) /\
  (run self query 5 0 =
     (SENTINEL,
      after_block st output 3
        [Printed (lit "Error: Could not parse action. Ending.")]) /\
   generation_calls (log (snd (run self query 5 0))) =
     S (generation_calls (log st)) /\
   tool_calls (log (snd (run self query 5 0))) = tool_calls (log st)).
Proof.
  intros self query st output.
  assert (H1 : (Z.of_nat 2 < 5)%Z) by reflexivity.
  assert (H2 : loop self 2 (start self query 0) = (Exhausted, st))
    by (vm_compute; reflexivity).
  assert (H3 : generate (llm self) (history st) STOP (world st) =
               (output, 3)) by (vm_compute; reflexivity).
  assert (H4 : contains FINAL_ANSWER output = false)
    by (vm_compute; reflexivity).
  assert (H5 : re_search output = None) by (vm_compute; reflexivity).
  split; [now repeat split|].
  exact (unparseable_block_aborts self query 5 0 2 st output 3
           H1 H2 H3 H4 H5).
Defined.

Lemma unknown_tool_recovers_witness :
  let self := failing_agent in
  let query := lit "q" in
  let st := start self query 0 in
  let output := action_block (lit "Search") (lit "rocq") in
  let nm := lit "Search" in
  let st' :=
    after_observation st output []
      (lit "Error: Tool '" ++ nm ++ lit "' not found.") 1 in
  ((Z.of_nat 0 < 5)%Z /\
   loop self 0 (start self query 0) = (Exhausted, st) /\
   generate (llm self) (history st) STOP (world st) = (output, 1) /\
   parse output = Action nm (lit "rocq") /\
   dict_get (tools self) nm = None) /\
  (loop self 1 (start self query 0) = (Exhausted, st') /\
   run self query 5 0 = finish (loop self (Z.to_nat 5 - 1) st') /\
   ((Z.of_nat 1 < 5)%Z ->
    exists more,
      log (snd (run self query 5 0)) =
      log st' ++
      Generated (history st') STOP
        (fst (generate (llm self) (history st') STOP 1)) :: more)).
Proof.
  intros self query st output nm st'.
  assert (H1 : (Z.of_nat 0 < 5)%Z) by reflexivity.
  assert (H2 : loop self 0 (start self query 0) = (Exhausted, st))
    by reflexivity.
  assert (H3 : generate (llm self) (history st) STOP (world st) =
               (output, 1)) by reflexivity.
  assert (H4 : parse output = Action nm (lit "rocq"))
    by (vm_compute; reflexivity).
  assert (H5 : dict_get (tools self) nm = None) by (vm_compute; reflexivity).
  split; [now repeat split|].
  exact (unknown_tool_recovers self query 5 0 0 st output 1 nm (lit "rocq")
           H1 H2 H3 H4 H5).
Defined.

Lemma tool_error_recovers_witness :
  let self := failing_agent in
  let query := lit "q" in
  let st := snd (loop self 1 (start self query 0)) in
  let output := action_block (lit "Calculator") (lit "1/0") in
  let nm := lit "Calculator" in
  let inp := lit "1/0" in
  let message := lit "division by zero" in
  let tool := raising_tool nm message in
  let st' :=
    after_observation st output (executing nm inp (Raised message))
      (lit "Error: " ++ message) 2 in
  ((Z.of_nat 1 < 5)%Z /\
   loop self 1 (start self query 0) = (Exhausted, st) /\
   generate (llm self) (history st) STOP (world st) = (output, 2) /\
   parse output = Action nm inp /\
   dict_get (tools self) nm = Some tool /\
   run_tool tool inp 2 = (Raised message, 2)) /\
  (loop self 2 (start self query 0) = (Exhausted, st') /\
   run self query 5 0 = finish (loop self (Z.to_nat 5 - 2) st') /\
   ((Z.of_nat 2 < 5)%Z ->
    exists more,
      log (snd (run self query 5 0)) =
      log st' ++
      Generated (history st') STOP
        (fst (generate (llm self) (history st') STOP 2)) :: more)).
Proof.
  intros self query st output nm inp message tool st'.
  assert (H1 : (Z.of_nat 1 < 5)%Z) by reflexivity.
  assert (H2 : loop self 1 (start self query 0) = (Exhausted, st))
    by (vm_compute; reflexivity).
  assert (H3 : generate (llm self) (history st) STOP (world st) =
               (output, 2)) by (vm_compute; reflexivity).
  assert (H4 : parse output = Action nm inp) by (vm_compute; reflexivity).
  assert (H5 : dict_get (tools self) nm = Some tool)
    by (vm_compute; reflexivity).
  assert (H6 : run_tool tool inp 2 = (Raised message, 2)) by reflexivity.
  split; [now repeat split|].
  exact (tool_error_recovers self query 5 0 1 st output 2 nm inp tool
           message 2 H1 H2 H3 H4 H5 H6).
Defined.

Lemma budget_bounds_generation_calls_witness :
  let self := scenario_agent in
  let query := lit "What is 2 + 2?" in
  let output := action_block (lit "Calculator") (lit "2 + 2") in
  (generate (llm self) (system_prompt self query) STOP 0 = (output, 1) /\
   contains FINAL_ANSWER output = false) /\
  (run self query 1 0 = (SENTINEL, snd (step self (start self query 0))) /\
   generation_calls (log (snd (run self query 1 0))) = 1 /\
   tool_calls (log (snd (run self query 1 0))) <= 1).
Proof.
  intros self query output.
  assert (H1 : generate (llm self) (system_prompt self query) STOP 0 =
               (output, 1)) by reflexivity.
  assert (H2 : contains FINAL_ANSWER output = false)
    by (vm_compute; reflexivity).
  split; [now split|].
  exact (proj2 (budget_bounds_generation_calls self query 1 0)
           output 1 H1 H2).
Defined.

Lemma history_append_only_witness :
  let self := scenario_agent in
  let st := start self (lit "What is 2 + 2?") 0 in
  1 <= 2 /\
  exists ext,
    history (snd (loop self 2 st)) = history (snd (loop self 1 st)) ++ ext.
Proof.
  intros self st.
  assert (H : 1 <= 2) by (repeat constructor).
  split; [exact H|].
  exact (proj2 (proj2 (history_append_only self)) 1 2 st H).
Defined.

Lemma run_deterministic_witness :
  let self := prompt_driven_agent in
  let R := fun _ _ : nat => True in
  let query := lit "What is 2 + 2?" in
  (llm_respects R self /\ tools_respect R self /\ R 0 7) /\
  (fst (run self query 5 0) = fst (run self query 5 7) /\
   history (snd (run self query 5 0)) = history (snd (run self query 5 7)) /\
   log (snd (run self query 5 0)) = log (snd (run self query 5 7))).
Proof.
  intros self R query.
  assert (H1 : llm_respects R self).
  { intros prompt stop v v' _. split; [reflexivity|exact I]. }
  assert (H2 : tools_respect R self).
  { intros nm tool input v v' D _. split; [|exact I].
    cbn in D. destruct (str_eqb _ nm); [|discriminate].
    inversion D. reflexivity. }
  assert (H3 : R 0 7) by exact I.
  split; [exact (conj H1 (conj H2 H3))|].
  exact (run_deterministic R self query 5 0 7 H1 H2 H3).
Defined.

Lemma sentinel_shared_witness :
  let self := failing_agent in
  let query := lit "q" in
  let st := snd (loop self 2 (start self query 0)) in
  let output := lit "I give up." in
  let self' := scenario_agent in
  let query' := lit "What is 2 + 2?" in
  let st' := snd (loop self' 1 (start self' query' 0)) in
  ((Z.of_nat 2 < 5)%Z /\
   loop self 2 (start self query 0) = (Exhausted, st) /\
   generate (llm self) (history st) STOP (world st) = (output, 3) /\
   parse output = Unparseable /\
   loop self' (Z.to_nat 1) (start self' query' 0) = (Exhausted, st')) /\
  (fst (run self query 5 0) = SENTINEL /\
   fst (run self' query' 1 0) = SENTINEL /\
   fst (run self query 5 0) = fst (run self' query' 1 0)).
Proof.
  intros self query st output self' query' st'.
  assert (H1 : (Z.of_nat 2 < 5)%Z) by reflexivity.
  assert (H2 : loop self 2 (start self query 0) = (Exhausted, st))
    by (vm_compute; reflexivity).
  assert (H3 : generate (llm self) (history st) STOP (world st) =
               (output, 3)) by (vm_compute; reflexivity).
  assert (H4 : parse output = Unparseable) by (vm_compute; reflexivity).
  assert (H5 : loop self' (Z.to_nat 1) (start self' query' 0) =
               (Exhausted, st')) by (vm_compute; reflexivity).
  split; [now repeat split|].
  exact (sentinel_shared self query 5 0 2 st output 3 self' query' 1 0 st'
           H1 H2 H3 H4 H5).
Defined.

(** * Further properties *)

(** ** The tools of a new agent *)

Lemma str_eqb_true_iff (a b : str) : str_eqb a b = true <-> a = b.
Proof.
  unfold str_eqb. destruct (list_eq_dec N.eq_dec a b); split;
    congruence.
Qed.

Lemma str_eqb_refl (a : str) : str_eqb a a = true.
Proof. now apply str_eqb_true_iff. Qed.

Lemma str_eqb_false (a b : str) : a <> b -> str_eqb a b = false.
Proof.
  intros H. destruct (str_eqb a b) eqn:E; [|reflexivity].
  now apply str_eqb_true_iff in E.
Qed.

Lemma dict_get_set_same {V} (d : dict V) (k : str) (v : V) :
  dict_get (dict_set d k v) k = Some v.
Proof.
  induction d as [|[k' v'] d IH]; simpl.
  - now rewrite str_eqb_refl.
  - destruct (str_eqb k' k) eqn:E; simpl; now rewrite E.
Qed.

Lemma dict_get_set_other {V} (d : dict V) (k k' : str) (v : V) :
  k' <> k -> dict_get (dict_set d k v) k' = dict_get d k'.
Proof.
  intros Hk. induction d as [|[k0 v0] d IH]; simpl.
  - rewrite str_eqb_false; [reflexivity|congruence].
  - destruct (str_eqb k0 k) eqn:E; simpl.
    + apply str_eqb_true_iff in E. subst k0.
      rewrite str_eqb_false; [reflexivity|congruence].
    + now rewrite IH.
Qed.

Lemma dict_keys_set_present {V} (d : dict V) (k : str) (v : V) :
  In k (dict_keys d) -> dict_keys (dict_set d k v) = dict_keys d.
Proof.
  induction d as [|[k' v'] d IH]; simpl; [contradiction|].
  destruct (str_eqb k' k) eqn:E; [reflexivity|].
  intros [H|H].
  - subst. now rewrite str_eqb_refl in E.
  - simpl. now rewrite (IH H).
Qed.

Lemma dict_keys_set_absent {V} (d : dict V) (k : str) (v : V) :
  ~ In k (dict_keys d) -> dict_keys (dict_set d k v) = dict_keys d ++ [k].
Proof.
  induction d as [|[k' v'] d IH]; simpl; [reflexivity|].
  intros H. destruct (str_eqb k' k) eqn:E.
  - apply str_eqb_true_iff in E. tauto.
  - simpl. rewrite IH; [reflexivity|tauto].
Qed.

Lemma find_app_first {A} (p : A -> bool) (l1 l2 : list A) :
  find p (l1 ++ l2) =
  match find p l1 with Some x => Some x | None => find p l2 end.
Proof.
  induction l1 as [|a l1 IH]; simpl; [reflexivity|].
  now destruct (p a).
Qed.

Lemma find_none_iff {A} (p : A -> bool) (l : list A) :
  find p l = None <-> forall x, In x l -> p x = false.
Proof.
  split; [apply find_none|].
  induction l as [|a l IH]; simpl; [reflexivity|]. intros H.
  rewrite (H a) by now left. apply IH. intros x Hx. apply H. now right.
Qed.

Section Registry.

Context {World : Type}.
Implicit Types (t u : Tool World) (ts : list (Tool World)).

Lemma fold_register_get ts (d : dict (Tool World)) (nm : str) :
  dict_get (fold_left register ts d) nm =
  match find (named nm) (rev ts) with
  | Some t => Some t
  | None => dict_get d nm
  end.
Proof.
  revert d. induction ts as [|t ts IH]; intros d; [reflexivity|].
  simpl fold_left. rewrite IH. simpl rev. rewrite find_app_first.
  destruct (find (named nm) (rev ts)); [reflexivity|].
  simpl. unfold named, register.
  destruct (str_eqb (name t) nm) eqn:E.
  - apply str_eqb_true_iff in E. subst nm. apply dict_get_set_same.
  - apply dict_get_set_other. intros ->. now rewrite str_eqb_refl in E.
Qed.

Lemma init_get (l : LLMProvider World) ts (nm : str) :
  dict_get (tools (init l ts)) nm = find (named nm) (rev ts).
Proof.
  unfold init. cbn [tools].
  change (fun d t => dict_set d (name t) t) with (@register World).
  rewrite fold_register_get. now destruct (find (named nm) (rev ts)).
Qed.

(** X1.  Among the tools given to a new agent, the last one with a
    given name is the one the agent finds under that name: a later
    tool replaces an earlier one of the same name. *)
Theorem init_last_registration_wins
    (l : LLMProvider World) (before after : list (Tool World)) t :
  (forall u, In u after -> name u <> name t) ->
  dict_get (tools (init l (before ++ t :: after))) (name t) = Some t.
Proof.
  intros H. rewrite init_get, rev_app_distr. simpl rev.
  rewrite <- app_assoc, find_app_first.
  assert (find (named (name t)) (rev after) = None) as ->.
  { apply find_none_iff. intros u Hu. apply in_rev in Hu.
    unfold named. apply str_eqb_false. now apply H. }
  simpl. unfold named. now rewrite str_eqb_refl.
Qed.

(** X2.  A name is unknown to a new agent exactly when none of the
    tools it was given has that name; and what it finds under a name
    is one of those tools, with that very name. *)
Theorem init_lookup_sound (l : LLMProvider World) ts (nm : str) :
  (dict_get (tools (init l ts)) nm = None <->
   forall t, In t ts -> name t <> nm) /\
  (forall t, dict_get (tools (init l ts)) nm = Some t ->
   In t ts /\ name t = nm).
Proof.
  rewrite init_get. split.
  - rewrite find_none_iff. split.
    + intros H t Ht E. apply in_rev in Ht. specialize (H t Ht).
      unfold named in H. rewrite E, str_eqb_refl in H. discriminate.
    + intros H t Ht. apply in_rev in Ht. unfold named.
      apply str_eqb_false. now apply H.
  - intros t Ht. apply find_some in Ht. destruct Ht as [Hin Hn].
    split; [now apply in_rev|]. now apply str_eqb_true_iff.
Qed.

Lemma fold_register_keys ts (d : dict (Tool World)) :
  NoDup (dict_keys d) ->
  NoDup (dict_keys (fold_left register ts d)) /\
  (forall nm, In nm (dict_keys (fold_left register ts d)) <->
              In nm (dict_keys d) \/ In nm (map name ts)) /\
  (NoDup (dict_keys d ++ map name ts) ->
   dict_keys (fold_left register ts d) = dict_keys d ++ map name ts).
Proof.
  revert d. induction ts as [|t ts IH]; intros d Hd.
  - simpl. rewrite app_nil_r. repeat split; tauto.
  - simpl fold_left. unfold register at 2 4 6.
    destruct (in_dec (list_eq_dec N.eq_dec) (name t) (dict_keys d)) as [Hin|Hin].
    + pose proof (dict_keys_set_present d (name t) t Hin) as K.
      assert (Hd' : NoDup (dict_keys (dict_set d (name t) t)))
        by now rewrite K.
      destruct (IH _ Hd') as (N & M & O). rewrite K in *.
      split; [exact N|]. split.
      * intros nm. rewrite M. simpl. split; [tauto|].
        intros [H|[H|H]]; subst; tauto.
      * intros ND. exfalso. simpl in ND.
        apply NoDup_remove_2 in ND. apply ND.
        apply in_or_app. now left.
    + pose proof (dict_keys_set_absent d (name t) t Hin) as K.
      assert (Hd' : NoDup (dict_keys (dict_set d (name t) t))).
      { rewrite K. apply NoDup_app; [assumption|repeat constructor; now intros []|].
        intros x Hx [E|[]]. now subst. }
      destruct (IH _ Hd') as (N & M & O). rewrite K in *.
      split; [exact N|]. split.
      * intros nm. rewrite M, in_app_iff. simpl. tauto.
      * intros ND. rewrite O; [now rewrite <- app_assoc|].
        now rewrite <- app_assoc.
Qed.

(** X3.  The names a new agent lists in its instructions are the names
    of the tools it was given, each once; when the tools have distinct
    names they are listed in the order given. *)
Theorem init_keys (l : LLMProvider World) ts :
  NoDup (dict_keys (tools (init l ts))) /\
  (forall nm, In nm (dict_keys (tools (init l ts))) <->
              exists t, In t ts /\ name t = nm) /\
  (NoDup (map name ts) -> dict_keys (tools (init l ts)) = map name ts).
Proof.
  unfold init. cbn [tools].
  change (fun d t => dict_set d (name t) t) with (@register World).
  destruct (fold_register_keys ts [] (NoDup_nil _)) as (N & M & O).
  split; [exact N|]. split.
  - intros nm. rewrite M, in_map_iff. simpl. split.
    + intros [[]|(t & E & Ht)]. now exists t.
    + intros (t & Ht & E). right. now exists t.
  - exact O.
Qed.

End Registry.

(** ** More on the run *)

Section Run.

Context {World : Type}.
Implicit Types (self : ReActAgent World) (st : State World) (w : World).

(** X4.  When the block generated in a pass parses to an action whose
    tool is registered and the tool returns, the tool is called once,
    on the parsed input and in the world the language model left; its
    result is the observation, appended to the history after the
    block; the pass ends as a completed one, the run continues from
    there with the steps that are left, and if a step is left the next
    thing the run does is call the language model on the extended
    history. *)
Theorem tool_result_observed
    self query max_steps w k st output w1 nm inp tool result w2 :
  (Z.of_nat k < max_steps)%Z ->
  loop self k (start self query w) = (Exhausted, st) ->
  generate (llm self) (history st) STOP (world st) = (output, w1) ->
  parse output = Action nm inp ->
  dict_get (tools self) nm = Some tool ->
  run_tool tool inp w1 = (Returned result, w2) ->
  let st' :=
    after_observation st output (executing nm inp (Returned result))
      result w2 in
  loop self (S k) (start self query w) = (Exhausted, st') /\
  run self query max_steps w =
    finish (loop self (Z.to_nat max_steps - S k) st') /\
  ((Z.of_nat (S k) < max_steps)%Z ->
   exists more,
     log (snd (run self query max_steps w)) =
     log st' ++
     Generated (history st') STOP
       (fst (generate (llm self) (history st') STOP w2)) :: more).
Proof.
  intros Hk L G P M T st'.
  apply (run_continues self query max_steps w k st st' Hk L).
  apply (step_action _ _ _ _ _ _ _ _ _ G P).
  now apply (dispatch_returned _ _ _ _ tool).
Qed.

(** X5.  With a budget that is not positive the run does nothing but
    print its opening line: the language model is not called, the
    history is the instructions, and the result is the sentinel. *)
Theorem no_budget_no_call self query max_steps w :
  (max_steps <= 0)%Z ->
  run self query max_steps w = (SENTINEL, start self query w).
Proof.
  intros H. unfold run.
  replace (Z.to_nat max_steps) with 0 by lia. reflexivity.
Qed.

Lemma loop_tool_calls self n st :
  tool_calls (log st) <= generation_calls (log st) ->
  tool_calls (log (snd (loop self n st))) <=
  generation_calls (log (snd (loop self n st))).
Proof.
  revert st. induction n as [|n IH]; intros st H; [exact H|].
  rewrite loop_S. destruct (step_calls self st) as [G T].
  destruct (step self st) as [[| |r] st1]; cbn [snd] in *; try lia.
  apply IH. lia.
Qed.

(** X6.  In a run, the tools are called at most as often as the
    language model. *)
Theorem tool_calls_bounded self query max_steps w :
  tool_calls (log (snd (run self query max_steps w))) <=
  generation_calls (log (snd (run self query max_steps w))).
Proof.
  unfold run. rewrite snd_finish. apply loop_tool_calls.
  cbv. lia.
Qed.

Lemma step_of_action self st :
  (exists nm inp,
     parse (fst (generate (llm self) (history st) STOP (world st))) =
     Action nm inp) ->
  fst (step self st) = Continue.
Proof.
  intros (nm & inp & P). unfold step.
  destruct (generate (llm self) (history st) STOP (world st)) as [o w1].
  cbn [fst] in P. rewrite P.
  now destruct (dispatch self nm inp w1) as [[obs w2] ev].
Qed.

Lemma loop_of_actions self n st :
  (forall prompt stop v, exists nm inp,
     parse (fst (generate (llm self) prompt stop v)) = Action nm inp) ->
  fst (loop self n st) = Exhausted /\
  generation_calls (log (snd (loop self n st))) =
    generation_calls (log st) + n.
Proof.
  intros H. revert st. induction n as [|n IH]; intros st.
  - simpl. split; [reflexivity|lia].
  - rewrite loop_S. pose proof (step_of_action self st (H _ _ _)) as F.
    destruct (step_calls self st) as [G _].
    destruct (step self st) as [f st1]. cbn [fst snd] in *. subst f.
    destruct (IH st1) as [E C]. split; [exact E|]. rewrite C, G. lia.
Qed.

(** X7.  When every block of the language model parses to an action,
    the run uses its whole budget: the loop runs out of steps, the
    language model is called once for each step of a positive budget,
    and the result is the sentinel. *)
Theorem budget_used_up self query max_steps w :
  (forall prompt stop v, exists nm inp,
     parse (fst (generate (llm self) prompt stop v)) = Action nm inp) ->
  fst (loop self (Z.to_nat max_steps) (start self query w)) = Exhausted /\
  fst (run self query max_steps w) = SENTINEL /\
  generation_calls (log (snd (run self query max_steps w))) =
    Z.to_nat max_steps.
Proof.
  intros H.
  destruct (loop_of_actions self (Z.to_nat max_steps) (start self query w) H)
    as [E C].
  split; [exact E|]. unfold run. rewrite snd_finish.
  split; [|exact C].
  destruct (loop self (Z.to_nat max_steps) (start self query w)) as [e s].
  cbn [fst] in E. now subst e.
Qed.

End Run.

(** ** What the log and the result of a run say *)

Lemma parse_FinalAnswer_inv (output text : str) :
  parse output = FinalAnswer text ->
  contains FINAL_ANSWER output = true /\
  text = strip (last_piece (split FINAL_ANSWER output)).
Proof.
  unfold parse. destruct (contains FINAL_ANSWER output).
  - intros H; inversion H. now split.
  - destruct (re_search output) as [[g1 g2]|]; discriminate.
Qed.

Lemma split_fuel_last_clean (sep : str) :
  sep <> [] ->
  forall n s, length s <= n ->
  contains sep (last_piece (split_fuel n sep s)) = false.
Proof.
  intros Hs. induction n as [|n IH]; intros s Hn.
  - destruct s; [|simpl in Hn; lia].
    cbn. unfold contains. now rewrite cut_nil.
  - rewrite split_fuel_S. destruct (cut sep s) as [[b a]|] eqn:E.
    + rewrite last_piece_cons by apply split_fuel_nonempty.
      apply IH. pose proof (cut_shorter _ _ _ _ Hs E). lia.
    + cbn. unfold contains. now rewrite E.
Qed.

(** The last piece of a split has no occurrence of the separator. *)
Lemma split_last_clean (sep s : str) :
  sep <> [] -> contains sep (last_piece (split sep s)) = false.
Proof. intros Hs. unfold split. now apply split_fuel_last_clean. Qed.

(** Stripping does not create an occurrence. *)
Lemma strip_by_clean (f : char -> bool) (sep s : str) :
  contains sep s = false -> contains sep (strip_by f s) = false.
Proof.
  intros H. apply contains_false_iff. intros b a E.
  destruct (strip_by_decomp f s) as (l & r & D & _).
  rewrite E in D. rewrite contains_false_iff in H.
  apply (H (l ++ b) (a ++ r)). rewrite D. now rewrite <- !app_assoc.
Qed.

Section RunLog.

Context {World : Type}.
Implicit Types (self : ReActAgent World) (st : State World) (w : World).

(** What a pass through the loop body adds to the log and to the
    history. *)
Lemma step_inv self st :
  exists o w1 more tail,
    generate (llm self) (history st) STOP (world st) = (o, w1) /\
    log (snd (step self st)) =
      log st ++ Generated (history st) STOP o :: Printed o :: more /\
    history (snd (step self st)) = history st ++ o ++ LF ++ tail /\
    (forall p s o', ~ In (Generated p s o') more) /\
    (forall nm inp oc, In (Executed nm inp oc) more ->
       parse o = Action nm inp /\
       exists tool w2,
         dict_get (tools self) nm = Some tool /\
         run_tool tool inp w1 = (oc, w2)).
Proof.
  unfold step.
  destruct (generate (llm self) (history st) STOP (world st)) as [o w1].
  exists o, w1.
  destruct (parse o) as [a|nm inp|] eqn:P.
  - exists [], []. cbn [snd log history].
    split; [reflexivity|]. split; [reflexivity|].
    split; [now rewrite app_nil_r|]. split.
    * intros p s o' [].
    * intros nm' inp' oc' [].
  - unfold dispatch.
    destruct (dict_get (tools self) nm) as [tool|] eqn:D.
    + destruct (run_tool tool inp w1) as [oc w2] eqn:T.
      eexists _, _. cbn [snd log history].
      split; [reflexivity|]. split.
      { rewrite <- app_assoc. cbn [app]. reflexivity. }
      split; [now rewrite <- !app_assoc|]. split.
      * intros p s o' [H|[H|[H|[]]]]; discriminate.
      * intros nm' inp' oc' [H|[H|[H|[]]]]; try discriminate.
        inversion H; subst. split; [reflexivity|]. now exists tool, w2.
    + eexists _, _. cbn [snd log history].
      split; [reflexivity|]. split.
      { rewrite <- app_assoc. cbn [app]. reflexivity. }
      split; [now rewrite <- !app_assoc|]. split.
      * intros p s o' [H|[]]; discriminate.
      * intros nm' inp' oc' [H|[]]; discriminate.
  - eexists _, []. cbn [snd log history]. rewrite app_nil_r.
    split; [reflexivity|]. split.
    { rewrite <- app_assoc. cbn [app]. reflexivity. }
    split; [reflexivity|]. split.
    * intros p s o' [H|[]]; discriminate.
    * intros nm' inp' oc' [H|[]]; discriminate.
Qed.

Lemma step_prompts_recorded self sp st :
  prompts_recorded sp st -> prompts_recorded sp (snd (step self st)).
Proof.
  intros [[e0 H0] HI].
  destruct (step_inv self st) as (o & w1 & more & tail & _ & L & Hh & NG & _).
  split.
  - exists (e0 ++ o ++ LF ++ tail). rewrite Hh, H0. now rewrite <- app_assoc.
  - intros p s o' Hin. rewrite L in Hin. apply in_app_or in Hin.
    destruct Hin as [Hin|[Hin|[Hin|Hin]]].
    + destruct (HI _ _ _ Hin) as (Hs & Hp & [e He]).
      split; [exact Hs|]. split; [exact Hp|].
      exists (e ++ o ++ LF ++ tail). rewrite Hh, He.
      now rewrite <- !app_assoc.
    + inversion Hin; subst. split; [reflexivity|]. split; [now exists e0|].
      now exists tail.
    + discriminate.
    + now apply NG in Hin.
Qed.

Lemma loop_prompts_recorded self sp n st :
  prompts_recorded sp st -> prompts_recorded sp (snd (loop self n st)).
Proof.
  revert st. induction n as [|n IH]; intros st H; [exact H|].
  rewrite loop_S. pose proof (step_prompts_recorded self sp st H) as H1.
  destruct (step self st) as [[| |r] st1]; cbn [snd] in *;
    try assumption.
  now apply IH.
Qed.

(** X8.  Every call of the language model in a run is made with the
    stop marker [Observation:] and on a prompt that starts with the
    instructions of the run; the block it returned stands in the final
    history, followed by a line break, right after that prompt.  So
    each prompt was the history at the time of the call, and nothing
    the language model said is missing from the final history. *)
Theorem generation_calls_recorded self query max_steps w p s o :
  In (Generated p s o) (log (snd (run self query max_steps w))) ->
  s = STOP /\
  (exists e, p = system_prompt self query ++ e) /\
  (exists e, history (snd (run self query max_steps w)) = p ++ o ++ LF ++ e).
Proof.
  unfold run. rewrite snd_finish.
  apply (loop_prompts_recorded self (system_prompt self query)).
  split.
  - exists []. cbn. now rewrite app_nil_r.
  - intros p' s' o' [H|[]]. discriminate.
Qed.

Lemma step_executed self st nm inp oc :
  In (Executed nm inp oc) (log (snd (step self st))) ->
  In (Executed nm inp oc) (log st) \/
  exists o w1 tool w2 l2,
    generate (llm self) (history st) STOP (world st) = (o, w1) /\
    parse o = Action nm inp /\
    dict_get (tools self) nm = Some tool /\
    run_tool tool inp w1 = (oc, w2) /\
    log (snd (step self st)) =
      log st ++ [Generated (history st) STOP o; Printed o] ++
      executing nm inp oc ++ l2.
Proof.
  unfold step.
  destruct (generate (llm self) (history st) STOP (world st)) as [o w1].
  destruct (parse o) as [a|nm' inp'|] eqn:P.
  - cbn [snd log]. intros H. apply in_app_or in H.
    destruct H as [H|[H|[H|[]]]]; try discriminate. now left.
  - unfold dispatch.
    destruct (dict_get (tools self) nm') as [tool|] eqn:D.
    + destruct (run_tool tool inp' w1) as [oc' w2] eqn:T.
      cbn [snd log]. intros H. apply in_app_or in H.
      destruct H as [H|H].
      * apply in_app_or in H.
        destruct H as [H|[H|[H|[]]]]; try discriminate. now left.
      * destruct H as [H|[H|[H|[]]]]; try discriminate.
        inversion H; subst. right.
        exists o, w1, tool, w2, [Printed (lit "Observation: " ++
          match oc with
          | Returned result => result
          | Raised message => lit "Error: " ++ message
          end)].
        repeat split; try assumption. now rewrite <- app_assoc.
    + cbn [snd log]. intros H. apply in_app_or in H.
      destruct H as [H|H].
      * apply in_app_or in H.
        destruct H as [H|[H|[H|[]]]]; try discriminate. now left.
      * destruct H as [H|[]]. discriminate.
  - cbn [snd log]. intros H. apply in_app_or in H.
    destruct H as [H|[H|[]]]; try discriminate.
    apply in_app_or in H.
    destruct H as [H|[H|[H|[]]]]; try discriminate. now left.
Qed.

Lemma step_executions_registered self st :
  executions_registered self (log st) ->
  executions_registered self (log (snd (step self st))).
Proof.
  intros HI nm inp oc Hin.
  destruct (step_executed self st nm inp oc Hin)
    as [Hold|(o & w1 & tool & w2 & l2 & G & P & D & T & L)].
  - destruct (HI _ _ _ Hold)
      as (l1 & l2 & p & o & tool & v0 & v & v' & E & G & P & D & T).
    destruct (step_log self st) as [more M].
    exists l1, (l2 ++ Generated (history st) STOP
                  (fst (generate (llm self) (history st) STOP (world st)))
                  :: more), p, o, tool, v0, v, v'.
    split; [|now repeat split].
    rewrite M, E. now rewrite <- !app_assoc.
  - exists (log st), l2, (history st), o, tool, (world st), w1, w2.
    now repeat split.
Qed.

Lemma loop_executions_registered self n st :
  executions_registered self (log st) ->
  executions_registered self (log (snd (loop self n st))).
Proof.
  revert st. induction n as [|n IH]; intros st H; [exact H|].
  rewrite loop_S. pose proof (step_executions_registered self st H) as H1.
  destruct (step self st) as [[| |r] st1]; cbn [snd] in *;
    try assumption.
  now apply IH.
Qed.

(** X9.  Every tool call in a run comes from a block of the language
    model in this run: in the log it stands right after the call of the
    language model that returned the block and the print of the block;
    the block parses to the name and the input of the tool call; the
    name is registered, and the outcome is what the tool registered
    under it gives on that input in the world the language model left.
    So the run calls no tool that is not registered, and none on its
    own account. *)
Theorem executions_are_registered self query max_steps w nm inp oc :
  In (Executed nm inp oc) (log (snd (run self query max_steps w))) ->
  exists l1 l2 p o tool v0 v v',
    log (snd (run self query max_steps w)) =
      l1 ++ [Generated p STOP o; Printed o] ++ executing nm inp oc ++ l2 /\
    generate (llm self) p STOP v0 = (o, v) /\
    parse o = Action nm inp /\
    dict_get (tools self) nm = Some tool /\
    run_tool tool inp v = (oc, v').
Proof.
  unfold run. rewrite snd_finish.
  apply (loop_executions_registered self).
  intros nm' inp' oc' [H|[]]. discriminate.
Qed.

Lemma loop_returned_inv self n st r :
  fst (loop self n st) = Returned_from_loop r ->
  exists output,
    contains FINAL_ANSWER output = true /\
    r = strip (last_piece (split FINAL_ANSWER output)).
Proof.
  revert st. induction n as [|n IH]; intros st; [discriminate|].
  rewrite loop_S. unfold step.
  destruct (generate (llm self) (history st) STOP (world st)) as [o w1].
  destruct (parse o) as [a|nm inp|] eqn:P.
  - cbn [fst]. intros H; inversion H; subst.
    exists o. now apply parse_FinalAnswer_inv.
  - destruct (dispatch self nm inp w1) as [[obs w2] ev]. apply IH.
  - discriminate.
Qed.

(** X10.  The result of a run neither starts nor ends with a white
    space character, and it has no occurrence of [Final Answer:]. *)
Theorem result_is_clean self query max_steps w :
  let result := fst (run self query max_steps w) in
  isspace (hd 0%N result) = false /\
  isspace (last result 0%N) = false /\
  contains FINAL_ANSWER result = false.
Proof.
  unfold run.
  destruct (loop self (Z.to_nat max_steps) (start self query w))
    as [e s] eqn:L.
  destruct e as [r| |]; cbn [finish fst];
    try (repeat split; reflexivity).
  assert (F : fst (loop self (Z.to_nat max_steps) (start self query w)) =
              Returned_from_loop r) by now rewrite L.
  apply loop_returned_inv in F. destruct F as (output & _ & ->).
  destruct (strip_by_ends isspace
              (last_piece (split FINAL_ANSWER output)) eq_refl) as [A B].
  repeat split; [exact A|exact B|].
  apply strip_by_clean, split_last_clean. discriminate.
Qed.

End RunLog.

(** X11.  What decides the classification of a block: it is a final
    answer exactly when [Final Answer:] occurs in it, and it cannot be
    parsed exactly when neither [Final Answer:] occurs in it nor, in
    this order, [Action: ] and a line break followed by
    [Action Input: ]. *)
Theorem parse_classification (output : str) :
  ((exists text, parse output = FinalAnswer text) <->
   exists a b, output = a ++ FINAL_ANSWER ++ b) /\
  (parse output = Unparseable <->
   (forall a b, output <> a ++ FINAL_ANSWER ++ b) /\
   (forall p x y, output <> p ++ ACTION ++ x ++ ACTION_INPUT ++ y)).
Proof.
  rewrite <- contains_true_iff, <- contains_false_iff, <- re_search_None_iff.
  unfold parse. destruct (contains FINAL_ANSWER output).
  - split; split; try (intros [? ?]); try discriminate; eauto.
  - destruct (re_search output) as [[g1 g2]|]; split; split;
      try (intros [? ?]); try discriminate; eauto.
Qed.

(** ** Text after the action input *)

Lemma contains_app_l (m s1 s2 : str) :
  contains m s1 = true -> contains m (s1 ++ s2) = true.
Proof.
  rewrite !contains_true_iff. intros (b & a & ->).
  exists b, (a ++ s2). now rewrite <- !app_assoc.
Qed.

Lemma contains_app_r (m s1 s2 : str) :
  contains m s2 = true -> contains m (s1 ++ s2) = true.
Proof.
  rewrite !contains_true_iff. intros (b & a & ->).
  exists (s1 ++ b), a. now rewrite <- !app_assoc.
Qed.

(** An occurrence whose two ends are not stripped survives [strip]. *)
Lemma strip_by_keeps (f : char -> bool) (m s : str) :
  m <> [] ->
  f (hd 0%N m) = false -> f (last m 0%N) = false ->
  contains m s = true -> contains m (strip_by f s) = true.
Proof.
  intros Hm Hh Hl Hc. apply contains_true_iff in Hc.
  destruct Hc as (a & b & E).
  destruct (strip_by_decomp f s) as (l & r & D & Fl & Fr).
  rewrite forallb_forall in Fl, Fr.
  set (t := strip_by f s) in *. apply contains_true_iff.
  assert (S1 : exists a', t ++ r = a' ++ m ++ b).
  { rewrite E in D. symmetry in D. apply app_eq_app in D.
    destruct D as [z [[D1 D2]|[D1 D2]]].
    - destruct z as [|e z].
      + exists []. now rewrite D2.
      + exfalso. destruct m as [|c m]; [contradiction|].
        simpl in D2. inversion D2; subst e.
        simpl in Hh. rewrite Fl in Hh; [discriminate|].
        rewrite D1. apply in_or_app. right. now left.
    - now exists z. }
  destruct S1 as [a' S1]. rewrite app_assoc in S1.
  apply app_eq_app in S1. destruct S1 as [z [[S1 S2]|[S1 S2]]].
  - exists a', z. now rewrite S1, <- app_assoc.
  - destruct z as [|e z'].
    + exists a', []. rewrite !app_nil_r in *. now symmetry.
    + exfalso.
      assert (Hz : e :: z' <> []) by discriminate.
      destruct (exists_last Hz) as (z0 & d & Ed). rewrite Ed in *.
      rewrite (app_removelast_last 0%N Hm) in S1.
      rewrite !app_assoc in S1. apply app_inj_tail in S1.
      destruct S1 as [_ S1].
      assert (Hd : f d = true).
      { apply Fr. rewrite S2. apply in_or_app. left.
        apply in_or_app. right. now left. }
      rewrite <- S1 in Hd. exact (eq_true_false_abs _ Hd Hl).
Qed.

(** X12.  The input of an action is everything from [Action Input: ]
    to the end of the block: a text that stands anywhere after
    [Action Input: ], such as an observation the language model wrote
    itself after the input it meant, is part of the input the tool is
    called on (if its two ends are neither white space nor double
    quotes, which the trimming could remove). *)
Theorem trailing_text_in_input (pre X rest m : str) :
  let block := pre ++ ACTION ++ X ++ ACTION_INPUT ++ rest in
  contains FINAL_ANSWER block = false ->
  contains ACTION pre = false ->
  contains ACTION_INPUT X = false ->
  m <> [] ->
  isspace (hd 0%N m) = false -> isspace (last m 0%N) = false ->
  hd 0%N m <> DQUOTE -> last m 0%N <> DQUOTE ->
  contains m rest = true ->
  exists inp,
    parse block = Action (strip X) inp /\ contains m inp = true.
Proof.
  intros block HF Hpre HX Hm Hs1 Hs2 Hq1 Hq2 Hc.
  exists (strip_chars [DQUOTE] (strip rest)). split.
  - apply parse_action; [exact HF|]. now apply re_search_first.
  - unfold strip_chars. fold is_quote.
    apply strip_by_keeps; try assumption; try now apply is_quote_false.
    unfold strip. now apply strip_by_keeps.
Qed.

(** ** The mock backend *)

(** X13.  Whatever the prompt, the block of the mock backend can be
    parsed: it is one of two actions, for the tools Weather and
    Calculator, or one of three final answers. *)
Theorem MockLLM_blocks_parse (prompt : str) :
  let parsed := parse (MockLLM_generate prompt) in
  parsed = Action (lit "Weather") (lit "Delhi") \/
  parsed = FinalAnswer (lit "It is 32" ++ [DEGREE] ++
                        lit "C and Sunny in Delhi.") \/
  parsed = Action (lit "Calculator") (lit "2 + 2") \/
  parsed = FinalAnswer (lit "The answer is 4.") \/
  parsed = FinalAnswer (lit "I don't know how to handle this.").
Proof.
  unfold MockLLM_generate.
  destruct (contains (lit "Weather") prompt && contains (lit "Delhi") prompt
            && negb (contains (lit "Action:") prompt));
    [left; reflexivity|].
  destruct (contains (lit "Observation: 32" ++ [DEGREE] ++ lit "C, Sunny")
              prompt && negb (contains (lit "Final Answer") prompt));
    [right; left; reflexivity|].
  destruct (contains (lit "2 + 2") prompt
            && negb (contains (lit "Action:") prompt));
    [right; right; left; reflexivity|].
  destruct (contains (lit "2 + 2") prompt
            && contains (lit "Observation: 4") prompt);
    [right; right; right; left; reflexivity|].
  right; right; right; right; reflexivity.
Qed.

Lemma MockLLM_generate_instructed (prompt : str) :
  contains (lit "Action:") prompt = true ->
  contains (lit "Final Answer") prompt = true ->
  MockLLM_generate prompt =
  if contains (lit "2 + 2") prompt && contains (lit "Observation: 4") prompt
  then ANSWER_4 else CONFUSED.
Proof.
  intros H1 H2. unfold MockLLM_generate. rewrite H1, H2.
  cbn [negb]. rewrite !andb_false_r. reflexivity.
Qed.

Section Mock.

Context {World : Type}.

Lemma system_prompt_instructed (self : ReActAgent World) (query : str) :
  contains (lit "Action:") (system_prompt self query) = true /\
  contains (lit "Final Answer") (system_prompt self query) = true.
Proof.
  unfold system_prompt. split.
  - do 2 apply contains_app_r. apply contains_app_l. reflexivity.
  - do 4 apply contains_app_r. apply contains_app_l. reflexivity.
Qed.

(** X14.  An agent with the mock backend never calls a tool.  The
    instructions that open the history contain [Action:] and
    [Final Answer], which the first three branches of the mock backend
    exclude; so its first block is a final answer, and with a positive
    budget the run returns after one call of the language model:
    [The answer is 4.] if the instructions contain [2 + 2] and
    [Observation: 4], and [I don't know how to handle this.]
    otherwise, whatever the tools and the query are. *)
Theorem mock_agent_never_acts
    (ts : list (Tool World)) (query : str) (max_steps : Z) (w : World) :
  (0 < max_steps)%Z ->
  let self := init MockLLM ts in
  let sp := system_prompt self query in
  let r := run self query max_steps w in
  fst r =
    (if contains (lit "2 + 2") sp && contains (lit "Observation: 4") sp
     then lit "The answer is 4."
     else lit "I don't know how to handle this.") /\
  snd r = after_block (start self query w) (MockLLM_generate sp) w [] /\
  generation_calls (log (snd r)) = 1 /\
  tool_calls (log (snd r)) = 0.
Proof.
  intros Hk self sp r.
  destruct (system_prompt_instructed self query) as [I1 I2].
  pose proof (MockLLM_generate_instructed sp I1 I2) as G.
  assert (L : loop self 0 (start self query w) =
              (Exhausted, start self query w)) by reflexivity.
  assert (Hk' : (Z.of_nat 0 < max_steps)%Z) by exact Hk.
  assert (Gen : generate (llm self) (history (start self query w)) STOP
                  (world (start self query w)) =
                (MockLLM_generate sp, w)) by reflexivity.
  assert (E : exists answer,
            parse (MockLLM_generate sp) = FinalAnswer answer /\
            answer =
              (if contains (lit "2 + 2") sp &&
                  contains (lit "Observation: 4") sp
               then lit "The answer is 4."
               else lit "I don't know how to handle this.")).
  { rewrite G.
    destruct (contains (lit "2 + 2") sp && contains (lit "Observation: 4") sp);
      eexists; split; reflexivity. }
  destruct E as (answer & P & Ea).
  assert (R : r = (answer,
                   after_block (start self query w) (MockLLM_generate sp) w [])).
  { unfold r. rewrite (run_at _ _ _ _ 0 _ Hk' L).
    now rewrite (step_final _ _ _ _ _ Gen P). }
  rewrite R. cbn [fst snd]. split; [exact Ea|]. split; [reflexivity|].
  split; reflexivity.
Qed.

End Mock.

(** ** The further theorems at work *)

Lemma init_last_registration_wins_witness :
  let l : LLMProvider nat := MockLLM in
  let first := constant_tool (lit "A") (lit "x") in
  let second := raising_tool (lit "A") (lit "z") in
  let other := constant_tool (lit "B") (lit "y") in
  (forall u, In u [other] -> name u <> name second) /\
  dict_get (tools (init l ([first] ++ second :: [other]))) (name second) =
    Some second.
Proof.
  intros l first second other.
  assert (H : forall u, In u [other] -> name u <> name second).
  { intros u [<-|[]]. discriminate. }
  split; [exact H|].
  exact (init_last_registration_wins l [first] [other] second H).
Defined.

Lemma init_lookup_sound_witness :
  let l : LLMProvider nat := MockLLM in
  let calculator := constant_tool (lit "Calculator") (lit "4") in
  let ts := [calculator; constant_tool (lit "Weather") (lit "Unknown city")] in
  dict_get (tools (init l ts)) (lit "Calculator") = Some calculator /\
  (In calculator ts /\ name calculator = lit "Calculator").
Proof.
  intros l calculator ts.
  assert (H : dict_get (tools (init l ts)) (lit "Calculator") =
              Some calculator) by reflexivity.
  split; [exact H|].
  exact (proj2 (init_lookup_sound l ts (lit "Calculator")) calculator H).
Defined.

Lemma init_keys_witness :
  let l : LLMProvider nat := MockLLM in
  let ts := [constant_tool (lit "Calculator") (lit "4");
             constant_tool (lit "Weather") (lit "Unknown city")] in
  NoDup (map name ts) /\
  dict_keys (tools (init l ts)) = map name ts.
Proof.
  intros l ts.
  assert (H : NoDup (map name ts)).
  { repeat constructor; cbn; intuition discriminate. }
  split; [exact H|].
  exact (proj2 (proj2 (init_keys l ts)) H).
Defined.

Lemma tool_result_observed_witness :
  let self := scenario_agent in
  let query := lit "What is 2 + 2?" in
  let st := start self query 0 in
  let nm := lit "Calculator" in
  let inp := lit "2 + 2" in
  let output := action_block nm inp in
  let tool := constant_tool nm (lit "4") in
  let st' :=
    after_observation st output (executing nm inp (Returned (lit "4")))
      (lit "4") 1 in
  ((Z.of_nat 0 < 5)%Z /\
   loop self 0 (start self query 0) = (Exhausted, st) /\
   generate (llm self) (history st) STOP (world st) = (output, 1) /\
   parse output = Action nm inp /\
   dict_get (tools self) nm = Some tool /\
   run_tool tool inp 1 = (Returned (lit "4"), 1)) /\
  (loop self 1 (start self query 0) = (Exhausted, st') /\
   run self query 5 0 = finish (loop self (Z.to_nat 5 - 1) st') /\
   ((Z.of_nat 1 < 5)%Z ->
    exists more,
      log (snd (run self query 5 0)) =
      log st' ++
      Generated (history st') STOP
        (fst (generate (llm self) (history st') STOP 1)) :: more)).
Proof.
  intros self query st nm inp output tool st'.
  assert (H1 : (Z.of_nat 0 < 5)%Z) by reflexivity.
  assert (H2 : loop self 0 (start self query 0) = (Exhausted, st))
    by reflexivity.
  assert (H3 : generate (llm self) (history st) STOP (world st) =
               (output, 1)) by reflexivity.
  assert (H4 : parse output = Action nm inp) by (vm_compute; reflexivity).
  assert (H5 : dict_get (tools self) nm = Some tool)
    by (vm_compute; reflexivity).
  assert (H6 : run_tool tool inp 1 = (Returned (lit "4"), 1)) by reflexivity.
  split; [now repeat split|].
  exact (tool_result_observed self query 5 0 0 st output 1 nm inp tool
           (lit "4") 1 H1 H2 H3 H4 H5 H6).
Defined.

Lemma no_budget_no_call_witness :
  let self := scenario_agent in
  let query := lit "What is 2 + 2?" in
  (-3 <= 0)%Z /\ run self query (-3) 0 = (SENTINEL, start self query 0).
Proof.
  intros self query.
  assert (H : (-3 <= 0)%Z) by discriminate.
  split; [exact H|].
  exact (no_budget_no_call self query (-3) 0 H).
Defined.

Lemma budget_used_up_witness :
  let self := repeating_agent in
  let query := lit "What is 2 + 2?" in
  (forall prompt stop v, exists nm inp,
     parse (fst (generate (llm self) prompt stop v)) = Action nm inp) /\
  (fst (loop self (Z.to_nat 3) (start self query 0)) = Exhausted /\
   fst (run self query 3 0) = SENTINEL /\
   generation_calls (log (snd (run self query 3 0))) = Z.to_nat 3).
Proof.
  intros self query.
  assert (H : forall prompt stop v, exists nm inp,
            parse (fst (generate (llm self) prompt stop v)) = Action nm inp).
  { intros prompt stop v. exists (lit "Calculator"), (lit "2 + 2").
    reflexivity. }
  split; [exact H|].
  exact (budget_used_up self query 3 0 H).
Defined.

Lemma generation_calls_recorded_witness :
  let self := scenario_agent in
  let query := lit "What is 2 + 2?" in
  let p := system_prompt self query in
  let o := action_block (lit "Calculator") (lit "2 + 2") in
  In (Generated p STOP o) (log (snd (run self query 5 0))) /\
  (STOP = STOP /\
   (exists e, p = system_prompt self query ++ e) /\
   (exists e, history (snd (run self query 5 0)) = p ++ o ++ LF ++ e)).
Proof.
  intros self query p o.
  assert (H : In (Generated p STOP o) (log (snd (run self query 5 0)))).
  { right. left. reflexivity. }
  split; [exact H|].
  exact (generation_calls_recorded self query 5 0 p STOP o H).
Defined.

Lemma executions_are_registered_witness :
  let self := scenario_agent in
  let query := lit "What is 2 + 2?" in
  let nm := lit "Calculator" in
  let inp := lit "2 + 2" in
  let oc := Returned (lit "4") in
  In (Executed nm inp oc) (log (snd (run self query 5 0))) /\
  exists l1 l2 p o tool v0 v v',
    log (snd (run self query 5 0)) =
      l1 ++ [Generated p STOP o; Printed o] ++ executing nm inp oc ++ l2 /\
    generate (llm self) p STOP v0 = (o, v) /\
    parse o = Action nm inp /\
    dict_get (tools self) nm = Some tool /\
    run_tool tool inp v = (oc, v').
Proof.
  intros self query nm inp oc.
  assert (H : In (Executed nm inp oc) (log (snd (run self query 5 0)))).
  { do 4 right. left. reflexivity. }
  split; [exact H|].
  exact (executions_are_registered self query 5 0 nm inp oc H).
Defined.

Lemma parse_classification_witness :
  let output := lit "I give up." in
  parse output = Unparseable /\
  ((forall a b, output <> a ++ FINAL_ANSWER ++ b) /\
   (forall p x y, output <> p ++ ACTION ++ x ++ ACTION_INPUT ++ y)).
Proof.
  intros output.
  assert (H : parse output = Unparseable) by reflexivity.
  split; [exact H|].
  exact (proj1 (proj2 (parse_classification output)) H).
Defined.

Lemma trailing_text_in_input_witness :
  let X := lit "Calculator" in
  let m := lit "Observation: 5" in
  let rest := [DQUOTE] ++ lit "2 + 2" ++ [DQUOTE] ++ LF ++ m in
  let block := [] ++ ACTION ++ X ++ ACTION_INPUT ++ rest in
  (contains FINAL_ANSWER block = false /\
   contains ACTION [] = false /\
   contains ACTION_INPUT X = false /\
   m <> [] /\
   isspace (hd 0%N m) = false /\ isspace (last m 0%N) = false /\
   hd 0%N m <> DQUOTE /\ last m 0%N <> DQUOTE /\
   contains m rest = true) /\
  exists inp,
    parse block = Action (strip X) inp /\ contains m inp = true.
Proof.
  intros X m rest block.
  assert (H1 : contains FINAL_ANSWER block = false)
    by (vm_compute; reflexivity).
  assert (H2 : contains ACTION [] = false) by reflexivity.
  assert (H3 : contains ACTION_INPUT X = false) by (vm_compute; reflexivity).
  assert (H4 : m <> []) by discriminate.
  assert (H5 : isspace (hd 0%N m) = false) by reflexivity.
  assert (H6 : isspace (last m 0%N) = false) by reflexivity.
  assert (H7 : hd 0%N m <> DQUOTE) by discriminate.
  assert (H8 : last m 0%N <> DQUOTE) by discriminate.
  assert (H9 : contains m rest = true) by (vm_compute; reflexivity).
  split; [now repeat split|].
  exact (trailing_text_in_input [] X rest m H1 H2 H3 H4 H5 H6 H7 H8 H9).
Defined.

Lemma mock_agent_never_acts_witness :
  let ts := [counting_tool (lit "Calculator") (lit "4");
             counting_tool (lit "Weather") (lit "Unknown city")] in
  let query := lit "What is the weather in Delhi?" in
  let self := init MockLLM ts in
  let sp := system_prompt self query in
  let r := run self query 5 0 in
  (0 < 5)%Z /\
  (fst r =
     (if contains (lit "2 + 2") sp && contains (lit "Observation: 4") sp
      then lit "The answer is 4."
      else lit "I don't know how to handle this.") /\
   snd r = after_block (start self query 0) (MockLLM_generate sp) 0 [] /\
   generation_calls (log (snd r)) = 1 /\
   tool_calls (log (snd r)) = 0).
Proof.
  intros ts query self sp r.
  assert (H : (0 < 5)%Z) by reflexivity.
  split; [exact H|].
  exact (mock_agent_never_acts ts query 5 0 H).
Defined.
